(** * Synthetic sequence tasks of mlpack: AddTask and CopyTask

    A shallow embedding of
    [src/mlpack/methods/ann/augmented/tasks/add_impl.hpp] and
    [src/mlpack/methods/ann/augmented/tasks/copy_impl.hpp],
    followed by the properties of the generated batches.

    Conventions of the embedding.
    - [size_t] values count elements of allocated arrays and are modelled
      by [nat]; the C++ [int] is 32 bits wide and modelled by [Z] with the
      wrap-around written out ([wrap32]).
    - An [arma::colvec] is the list of its elements, an [arma::mat] a
      record of its dimensions and its column-major memory.  The elements
      are doubles which only ever hold the small integers 0, 1 and 2, so
      they are modelled by [Z].
    - An [arma::field] with [n] slots is the list of its [n] items.
    - C++ exceptions, failed assertions and failed Armadillo bounds checks
      are values of [error]; fallible code returns a [result].
    - The random number generators are an explicit tape of raw draws that
      is threaded through the generators. *)

From stdpp Require Import base list numbers.

Local Open Scope Z_scope.

(** ** Errors and the error monad *)

Inductive error : Type :=
| InvalidArgument   (* std::invalid_argument *)
| DomainError       (* std::domain_error *)
| LogicError        (* std::logic_error *)
| AssertionFailure  (* a failed assert() *)
| OutOfBounds       (* an index or a range outside the object *)
| EmptyRange        (* a uniform draw from an empty range *)
| LoopBound.        (* a while loop running past the width of an int *)

Inductive result (A : Type) : Type :=
| Ok (a : A)
| Err (e : error).
Arguments Ok {A} a.
Arguments Err {A} e.

#[global] Instance result_ret : MRet result := fun A a => Ok a.
#[global] Instance result_bind : MBind result := fun A B f m =>
  match m with
  | Ok a => f a
  | Err e => Err e
  end.

(** [for_loop lo n body s] is [for (i = lo; i < lo + n; ++i) s = body i s]. *)
Fixpoint for_loop {S : Type} (lo : nat) (n : nat)
    (body : nat → S → result S) (s : S) : result S :=
  match n with
  | O => Ok s
  | Datatypes.S n' => s' ← body lo s; for_loop (Datatypes.S lo) n' body s'
  end.

(** ** The random sources *)

(** The tape of raw draws still to come. *)
Definition Rng : Type := nat → nat.

Definition next (g : Rng) : nat * Rng := (g O, fun n => g (S n)).

(** Modelled from the spec: [mlpack::math::RandInt] is declared outside the
    two source files; the spec describes it as a uniform random-integer
    draw [RandInt(low, highExclusive)] over the integers [low], ...,
    [highExclusive - 1].  The spec does not say what a draw from an empty
    range does; the model gives it no value, the error [EmptyRange]. *)
Definition RandInt (lo hiExclusive : nat) (g : Rng) : result (nat * Rng) :=
  if decide (lo < hiExclusive)%nat
  then let '(r, g') := next g in
       Ok ((lo + r `mod` (hiExclusive - lo))%nat, g')
  else Err EmptyRange.

(** ** Armadillo containers *)

(** An [arma::colvec]. *)
Abbreviation vec := (list Z) (only parsing).

Record mat : Type := Mat {
  n_rows : nat;
  n_cols : nat;
  mem : list Z   (* column-major: element (r, c) is at r + c * n_rows *)
}.

Definition n_elem (m : mat) : nat := (n_rows m * n_cols m)%nat.

(** An [arma::field]. *)
Abbreviation field := list (only parsing).

(** [arma::randi<colvec>(n, distr_param(a, b))]: [n] integers of [a..b]. *)
Fixpoint randi (n : nat) (a b : Z) (g : Rng) : vec * Rng :=
  match n with
  | O => ([], g)
  | S n' =>
      let '(r, g1) := next g in
      let '(v, g2) := randi n' a b g1 in
      ((a + Z.of_nat r `mod` (b - a + 1)) :: v, g2)
  end.

(** [arma::zeros(r, c)] and [arma::ones(n)]. *)
Definition zeros (r c : nat) : mat := Mat r c (replicate (r * c) 0).
Definition ones (n : nat) : vec := replicate n 1.

(** [v.at(k)] and [v.at(k) = x]: no bounds check in Armadillo, reading or
    writing outside the vector is undefined and reported as [OutOfBounds]. *)
Definition vec_at (v : vec) (k : nat) : result Z :=
  match v !! k with
  | Some x => Ok x
  | None => Err OutOfBounds
  end.

Definition vec_put (v : vec) (k : nat) (x : Z) : result vec :=
  if decide (k < length v)%nat then Ok (<[k := x]> v) else Err OutOfBounds.

(** [m.at(r, c) = x]: the write goes to [mem[r + c * n_rows]] unchecked. *)
Definition mat_put (m : mat) (r c : nat) (x : Z) : result mat :=
  let idx := (r + c * n_rows m)%nat in
  if decide (idx < length (mem m))%nat
  then Ok (Mat (n_rows m) (n_cols m) (<[idx := x]> (mem m)))
  else Err OutOfBounds.

(** [m.reshape(r, c)]: the elements are kept in column-major order; missing
    ones are set to zero and surplus ones are dropped. *)
Definition reshape (m : mat) (r c : nat) : mat :=
  Mat r c (resize (r * c) 0 (mem m)).

(** [m.t()]. *)
Definition transpose (m : mat) : mat :=
  Mat (n_cols m) (n_rows m)
    (flat_map (fun i => (fun j => mem m !!! (i + j * n_rows m)%nat) <$> seq 0 (n_cols m))
              (seq 0 (n_rows m))).

(** [m.col(c).rows(a, b) = v]: [col] and [rows] check their bounds, the
    assignment checks that the sizes agree. *)
Definition assign_col_rows (m : mat) (c a b : nat) (v : vec) : result mat :=
  if decide (n_cols m ≤ c)%nat then Err OutOfBounds
  else if decide (b < a ∨ n_rows m ≤ b)%nat then Err OutOfBounds
  else if decide (length v ≠ b - a + 1)%nat then Err LogicError
  else let off := (c * n_rows m + a)%nat in
       Ok (Mat (n_rows m) (n_cols m)
             (take off (mem m) ++ v ++ drop (off + length v) (mem m))).

(** [m.col(c) = x] for a matrix [x]. *)
Definition assign_col (m : mat) (c : nat) (x : mat) : result mat :=
  if decide (n_cols m ≤ c)%nat then Err OutOfBounds
  else if decide (n_rows x ≠ n_rows m ∨ n_cols x ≠ 1)%nat then Err LogicError
  else let off := (c * n_rows m)%nat in
       Ok (Mat (n_rows m) (n_cols m)
             (take off (mem m) ++ resize (n_rows m) 0 (mem x)
                ++ drop (off + n_rows m) (mem m))).

(** [m.set_size(r, c)]: the new elements are not initialised by Armadillo;
    the model fills them with zeros. *)
Definition set_size (r c : nat) : mat := zeros r c.

(** [f(i)] on a field: bounds-checked. *)
Definition field_get {A : Type} (f : field A) (i : nat) : result A :=
  match f !! i with
  | Some x => Ok x
  | None => Err OutOfBounds
  end.

(** ** The C++ [int] *)

Definition wrap32 (z : Z) : Z := (z + 2 ^ 31) `mod` 2 ^ 32 - 2 ^ 31.

Definition int_range (z : Z) : Prop := - 2 ^ 31 ≤ z < 2 ^ 31.

(** ** AddTask *)

Module AddTask.

Record t : Type := Build { bitLen : nat }.

(** [AddTask::AddTask(bitLen)]. *)
Definition new (bitLen : nat) : result t :=
  if decide (bitLen ≤ 0)%nat then Err InvalidArgument
  else Ok (Build bitLen).

(** The variables of [Generate] that live across the iterations of its
    loop: the random tape and the two operand sizes of line 41. *)
Record loop_state : Type := LoopState {
  rng : Rng;
  sizeA : nat;
  sizeB : nat
}.

(** [val <<= 1; val += x] on an [int val] and a double [x]: the shift wraps
    at 32 bits; the sum is formed in double and converted back to [int]. *)
Definition shift_in (val : Z) (x : Z) : Z :=
  wrap32 (wrap32 (Z.shiftl val 1) + x).

(** Lines 58-63 and 65-70: [for (k = lo; k < lo + n; ++k)] over [v]. *)
Definition read_bits (v : vec) (lo n : nat) : result Z :=
  for_loop lo n (fun k val => x ← vec_at v k; Ok (shift_in val x)) 0.

(** Lines 74-78: [while (tot > 0)].  An [int] has 32 bits, so a run needs
    at most 31 iterations; [fuel] bounds them. *)
Fixpoint binary_loop (fuel : nat) (tot : Z) (binarySeq : list Z)
    : result (list Z) :=
  if decide (0 < tot) then
    match fuel with
    | O => Err LoopBound
    | S fuel' =>
        binary_loop fuel' (Z.shiftr tot 1) (binarySeq ++ [Z.land tot 1])
    end
  else Ok binarySeq.

(** Lines 90-95: the digits are copied in reverse order. *)
Definition reverse_copy (binarySeq : list Z) : result vec :=
  let totLen := length binarySeq in
  for_loop 0 totLen
    (fun j lab => x ← vec_at binarySeq (totLen - j - 1); vec_put lab j x)
    (replicate totLen 0).

(** Lines 44-49: the operand sizes of the item. *)
Definition draw_sizes (task : t) (fixedLength : bool) (s : loop_state)
    : result loop_state :=
  if negb fixedLength then
    '(a, g1) ← RandInt 2 (bitLen task + 1) (rng s);
    '(b, g2) ← RandInt 2 (bitLen task + 1) g1;
    Ok (LoopState g2 a b)
  else Ok s.

(** Lines 53-95: the input sequence of the item and its label. *)
Definition build_item (s : loop_state) : result (vec * vec * loop_state) :=
  let '(v0, g) := randi (sizeA s + sizeB s + 1) 0 1 (rng s) in
  vecInput ← vec_put v0 (sizeA s) 2;
  valA ← read_bits vecInput 0 (sizeA s);
  valB ← read_bits vecInput (sizeA s + 1) (sizeB s);
  let tot := wrap32 (valA + valB) in
  binarySeq ← binary_loop 32 tot [];
  binarySeq ← (if decide (binarySeq = []) then
                 if decide (wrap32 (valA + valB) ≠ 0) then Err DomainError
                 else Ok (binarySeq ++ [0])
               else Ok binarySeq);
  vecLabel ← reverse_copy binarySeq;
  Ok (vecInput, vecLabel, LoopState g (sizeA s) (sizeB s)).

(** Lines 44-95: the body of the loop of [Generate], for one item. *)
Definition generate_item (task : t) (fixedLength : bool) (s : loop_state)
    : result (vec * vec * loop_state) :=
  s1 ← draw_sizes task fixedLength s;
  build_item s1.

(** Lines 39-96: the loop fills slot [i] of the two fields at iteration
    [i], so the fields are the lists of the items in order. *)
Fixpoint generate_loop (task : t) (fixedLength : bool) (n : nat)
    (s : loop_state) : result (field vec * field vec * loop_state) :=
  match n with
  | O => Ok ([], [], s)
  | S n' =>
      '(vi, vl, s1) ← generate_item task fixedLength s;
      '(vis, vls, s2) ← generate_loop task fixedLength n' s1;
      Ok (vi :: vis, vl :: vls, s2)
  end.

(** The sequences [vecInput] and [vecLabels] as they are at line 96,
    before they are encoded. *)
Definition GenerateSequences (task : t) (batchSize : nat)
    (fixedLength : bool) (g : Rng)
    : result (field vec * field vec * loop_state) :=
  generate_loop task fixedLength batchSize
    (LoopState g (bitLen task) (bitLen task)).

(** [size_t val = x] for a double [x]: undefined for a negative [x]. *)
Definition to_size_t (x : Z) : result nat :=
  if decide (0 ≤ x) then Ok (Z.to_nat x) else Err OutOfBounds.

(** Lines 134-140: the encoding of one sequence. *)
Definition Binarize_item (v : vec) : result mat :=
  m ← for_loop 0 (length v)
        (fun j m => x ← vec_at v j; val ← to_size_t x; mat_put m val j 1)
        (zeros 3 (length v));
  Ok (reshape m (n_elem m) 1).

(** [AddTask::Binarize(input, output)]. *)
Definition Binarize (input : field vec) : result (field mat) :=
  mapM Binarize_item input.

(** [AddTask::Generate(input, labels, batchSize, fixedLength)], the field
    form.  A 1-D field has [n_rows] equal to its number of items. *)
Definition Generate (task : t) (batchSize : nat) (fixedLength : bool)
    (g : Rng) : result (field mat * field mat * Rng) :=
  '(vecInput, vecLabels, s) ← GenerateSequences task batchSize fixedLength g;
  input ← Binarize vecInput;
  labels ← Binarize vecLabels;
  if decide (length input ≠ length labels) then Err LogicError
  else
    labels ← for_loop 0 (length input)
      (fun i labels =>
         inp ← field_get input i;
         lab ← field_get labels i;
         Ok (<[i := reshape lab (n_elem inp) 1]> labels))
      labels;
    Ok (input, labels, rng s).

(** [AddTask::Generate(input, labels, batchSize)], the matrix form. *)
Definition Generate_mat (task : t) (batchSize : nat) (g : Rng)
    : result (mat * mat * Rng) :=
  '(fieldInput, fieldLabels, g') ← Generate task batchSize true g;
  in0 ← field_get fieldInput 0;
  let input := set_size (n_rows in0) batchSize in
  lab0 ← field_get fieldLabels 0;
  let labels := set_size (n_rows lab0) batchSize in
  '(input, labels) ← for_loop 0 batchSize
      (fun i '(input, labels) =>
         fi ← field_get fieldInput i;
         input ← assign_col input i fi;
         fl ← field_get fieldLabels i;
         labels ← assign_col labels i fl;
         Ok (input, labels))
      (input, labels);
  Ok (input, labels, g').

End AddTask.

(** ** CopyTask *)

Module CopyTask.

Record t : Type := Build { maxLength : nat; nRepeats : nat }.

(** [CopyTask::CopyTask(maxLength, nRepeats)]. *)
Definition new (maxLength nRepeats : nat) : result t :=
  if decide (1 < maxLength)%nat then Ok (Build maxLength nRepeats)
  else Err AssertionFailure.

(** [arma::repmat(v, n, 1)] on a column: [n] copies, one below the other. *)
Definition repmat (v : vec) (n : nat) : vec := concat (replicate n v).

(** Lines 41-55: the body of the loop of [Generate], for one item.  The
    drawn [size] is at least 2, so the [size_t] subtractions do not wrap. *)
Definition generate_item (task : t) (g : Rng) : result (mat * mat * Rng) :=
  '(size, g1) ← RandInt 2 (maxLength task + 1) g;
  let '(vecInput, g2) := randi size 0 1 g1 in
  let vecLabel := repmat vecInput (nRepeats task) in
  let totSize := (length vecInput + length vecLabel)%nat in
  let input := zeros totSize 2 in
  input ← assign_col_rows input 0 0 (length vecInput - 1) vecInput;
  input ← assign_col_rows input 1 (length vecInput) (totSize - 1)
            (ones (totSize - length vecInput));
  let input := transpose input in
  let input := reshape input (n_elem input) 1 in
  let label := zeros totSize 1 in
  label ← assign_col_rows label 0 (length vecInput) (totSize - 1) vecLabel;
  Ok (input, label, g2).

(** [CopyTask::Generate(input, labels, batchSize)]: slot [i] of the two
    fields is filled at iteration [i]. *)
Fixpoint Generate (task : t) (batchSize : nat) (g : Rng)
    : result (field mat * field mat * Rng) :=
  match batchSize with
  | O => Ok ([], [], g)
  | S n' =>
      '(inp, lab, g1) ← generate_item task g;
      '(inps, labs, g2) ← Generate task n' g1;
      Ok (inp :: inps, lab :: labs, g2)
  end.

End CopyTask.

(** ** Reading the encodings back *)

(** Big-endian binary to integer. *)
Definition decode_be (bits : list Z) : Z :=
  fold_left (fun acc b => 2 * acc + b) bits 0.

(** The symbols of a flattened one-hot column with alphabet size 3: one
    symbol per indicator triple, up to the zero padding. *)
Fixpoint onehot_decode (col : list Z) : list Z :=
  match col with
  | 1 :: 0 :: 0 :: col' => 0 :: onehot_decode col'
  | 0 :: 1 :: 0 :: col' => 1 :: onehot_decode col'
  | 0 :: 0 :: 1 :: col' => 2 :: onehot_decode col'
  | _ => []
  end.

(** The symbols before and after the first separator. *)
Fixpoint operandA (syms : list Z) : list Z :=
  match syms with
  | [] => []
  | x :: syms' => if decide (x = 2) then [] else x :: operandA syms'
  end.

Fixpoint operandB (syms : list Z) : list Z :=
  match syms with
  | [] => []
  | x :: syms' => if decide (x = 2) then syms' else operandB syms'
  end.

Definition is_bit (x : Z) : Prop := x = 0 ∨ x = 1.

Definition is_symbol (x : Z) : Prop := x = 0 ∨ x = 1 ∨ x = 2.

(** The [int] that the loops of lines 58-70 read from a bit field. *)
Definition int_of_bits (bits : list Z) : Z :=
  fold_left AddTask.shift_in bits 0.

(** [lab] is the binary representation of [tot], most significant digit
    first and without a leading zero; zero is the single digit [0]. *)
Definition binary_of (tot : Z) (lab : list Z) : Prop :=
  Forall is_bit lab ∧ decode_be lab = tot
  ∧ (tot = 0 → lab = [0]) ∧ (tot ≠ 0 → head lab = Some 1).

(** The indicator vector of symbol [x] among [0], [1], [2]. *)
Definition indicator (x : Z) : list Z :=
  (fun r => if decide (Z.of_nat r = x) then 1 else 0) <$> seq 0 3.

(** [vi] and [vl] are an input sequence and a label sequence that the loop
    of [AddTask::Generate] can produce: two bit fields around a separator,
    and the binary representation of the sum that the code computes. *)
Definition add_item (task : AddTask.t) (fixedLength : bool)
    (vi vl : list Z) : Prop :=
  ∃ bitsA bitsB : list Z,
    vi = bitsA ++ 2 :: bitsB
    ∧ Forall is_bit bitsA ∧ Forall is_bit bitsB
    ∧ (if fixedLength
       then length bitsA = AddTask.bitLen task
            ∧ length bitsB = AddTask.bitLen task
       else (2 ≤ length bitsA ≤ AddTask.bitLen task)%nat
            ∧ (2 ≤ length bitsB ≤ AddTask.bitLen task)%nat)
    ∧ 0 ≤ wrap32 (int_of_bits bitsA + int_of_bits bitsB)
    ∧ binary_of (wrap32 (int_of_bits bitsA + int_of_bits bitsB)) vl.

(** The operand sizes of line 41, as they are in the fixed-length mode. *)
Definition sizes_fixed (task : AddTask.t) (fixedLength : bool)
    (s : AddTask.loop_state) : Prop :=
  fixedLength = true →
  AddTask.sizeA s = AddTask.bitLen task ∧ AddTask.sizeB s = AddTask.bitLen task.

(** The one-hot encoding of a sequence, flattened. *)
Definition onehot (v : list Z) : list Z := flat_map indicator v.

(** The column that holds the one-hot encoding of [v]. *)
Definition onehot_column (v : list Z) : mat :=
  Mat (3 * length v) 1 (onehot v).

(** The encoded label [vl], brought to the element count of the encoded
    input [vi] as in lines 107-110. *)
Definition label_column (vi vl : list Z) : mat :=
  reshape (onehot_column vl) (n_elem (onehot_column vi)) 1.

(** [m] is a single column of [r] elements. *)
Definition column_of (r : nat) (m : mat) : Prop :=
  n_rows m = r ∧ n_cols m = 1%nat ∧ length (mem m) = r.

(** The elements of column [i] of [m]. *)
Definition col (m : mat) (i : nat) : list Z :=
  take (n_rows m) (drop (i * n_rows m) (mem m)).

(** Channel [c] of a flattened two-channel column at time [t]. *)
Definition channel (c : nat) (col : list Z) (t : nat) : option Z :=
  col !! (2 * t + c)%nat.

(** [inp] and [lab] are an input item and a label item that the loop of
    [CopyTask::Generate] can produce from a base sequence [b] of [size]
    bits: the label is a column of zeros followed by the copies of [b]; the
    input is a column that interleaves the value channel and the delimiter
    channel. *)
Definition copy_item (task : CopyTask.t) (inp lab : mat) : Prop :=
  ∃ (size : nat) (b : list Z),
    let totSize := (size + size * CopyTask.nRepeats task)%nat in
    (2 ≤ size ≤ CopyTask.maxLength task)%nat
    ∧ length b = size ∧ Forall is_bit b
    ∧ n_cols lab = 1%nat ∧ n_rows lab = totSize
    ∧ mem lab = replicate size 0 ++ concat (replicate (CopyTask.nRepeats task) b)
    ∧ n_cols inp = 1%nat ∧ n_rows inp = (2 * totSize)%nat
    ∧ length (mem inp) = (2 * totSize)%nat
    ∧ (∀ t : nat, (t < size)%nat →
         channel 0 (mem inp) t = b !! t ∧ channel 1 (mem inp) t = Some 0)
    ∧ (∀ t : nat, (size ≤ t < totSize)%nat →
         channel 0 (mem inp) t = Some 0 ∧ channel 1 (mem inp) t = Some 1).

(** The symbols read back from a column. *)
Definition decode_column (m : mat) : list Z := onehot_decode (mem m).

(** The index of [mem] that [output.at(val, j) = 1] writes in a matrix of 3
    rows, for the value [x] at position [j] (line 138). *)
Definition write_index (j : nat) (x : Z) : nat := (Z.to_nat x + j * 3)%nat.

(** The indices written by the inner loop of [Binarize] on [v]. *)
Definition write_indices (v : list Z) : list nat := imap write_index v.

(** ** Concrete runs *)

(** The tape whose first raw draws are [l]; all later draws are [0]. *)
Definition tape_of (l : list nat) : Rng := fun n => nth n l 0%nat.

(** [AddTask(4)] with the operands [1011] and [0010] of the spec's example. *)
Definition tape_11_plus_2 : Rng := tape_of [1; 0; 1; 1; 0; 0; 0; 1; 0]%nat.

(** [CopyTask(5, 2)] with the drawn size 3 and the base sequence [1 0 1] of
    the spec's example. *)
Definition tape_copy : Rng := tape_of [1; 1; 0; 1]%nat.

(** [AddTask(31)]: operand A is [1 0...0], that is [2^30], and so is
    operand B. *)
Definition tape_wide : Rng := tape_of (1 :: replicate 31 0 ++ [1])%nat.

(** [AddTask(32)]: operand A is 32 ones, that is [2^32 - 1]; operand B is
    [0...0 1], that is 1. *)
Definition tape_carry : Rng :=
  tape_of (replicate 32 1 ++ 0 :: replicate 31 0 ++ [1])%nat.

(** ** The error monad and loops *)

Lemma bind_Ok {A B : Type} (f : A → result B) (m : result A) (b : B) :
  m ≫= f = Ok b ↔ ∃ a, m = Ok a ∧ f a = Ok b.
Proof.
  destruct m as [a|e]; simpl; split.
  - intros H. by exists a.
  - by intros (a' & [= <-] & H).
  - discriminate.
  - by intros (a' & H & _).
Qed.

Lemma ok_bind {A B : Type} (a : A) (f : A → result B) : Ok a ≫= f = f a.
Proof. done. Qed.

Ltac ok_inv H :=
  repeat match type of H with
  | _ ≫= _ = Ok _ =>
      let x := fresh "x" in let E := fresh "E" in
      apply bind_Ok in H; destruct H as (x & E & H)
  | Ok _ = Ok _ => injection H as H
  end.

Section for_loop.
Context {S : Type} (body : nat → S → result S) (I : nat → S → Prop).

Lemma for_loop_total (lo n : nat) (s : S) :
  I lo s →
  (∀ i s, (lo ≤ i < lo + n)%nat → I i s →
          ∃ s', body i s = Ok s' ∧ I (Datatypes.S i) s') →
  ∃ s', for_loop lo n body s = Ok s' ∧ I (lo + n)%nat s'.
Proof.
  revert lo s. induction n as [|n IH]; intros lo s Hs Hstep; simpl.
  - exists s. by rewrite Nat.add_0_r.
  - destruct (Hstep lo s) as (s1 & -> & Hs1); [lia | done |]. simpl.
    replace (lo + Datatypes.S n)%nat with (Datatypes.S lo + n)%nat by lia.
    apply IH; [done |]. intros i s2 Hi. apply Hstep. lia.
Qed.

End for_loop.

(** ** The C++ [int] *)

Lemma wrap32_range (z : Z) : int_range (wrap32 z).
Proof.
  unfold int_range, wrap32.
  pose proof (Z.mod_pos_bound (z + 2 ^ 31) (2 ^ 32)). lia.
Qed.

Lemma wrap32_id (z : Z) : int_range z → wrap32 z = z.
Proof.
  unfold int_range, wrap32. intros H.
  rewrite Z.mod_small; lia.
Qed.

(** ** The random sources *)

Lemma RandInt_Ok (lo hi : nat) (g : Rng) (x : nat) (g' : Rng) :
  RandInt lo hi g = Ok (x, g') → (lo ≤ x < hi)%nat.
Proof.
  unfold RandInt. case_decide; [| discriminate]. simpl. intros [= <- _].
  pose proof (Nat.mod_upper_bound (g 0%nat) (hi - lo)). lia.
Qed.

Lemma RandInt_total (lo hi : nat) (g : Rng) :
  (lo < hi)%nat → ∃ x g', RandInt lo hi g = Ok (x, g').
Proof. intros H. unfold RandInt. rewrite decide_True by done. simpl. eauto. Qed.

Lemma RandInt_empty (lo hi : nat) (g : Rng) :
  (hi ≤ lo)%nat → RandInt lo hi g = Err EmptyRange.
Proof. intros H. unfold RandInt. rewrite decide_False by lia. done. Qed.

(** Every value of a non-empty range is drawn for some raw draw. *)
Lemma RandInt_onto (lo hi x : nat) (g : Rng) :
  (lo ≤ x < hi)%nat →
  RandInt lo hi (fun n => match n with O => (x - lo)%nat | S n' => g n' end)
  = Ok (x, g).
Proof.
  intros H. unfold RandInt. rewrite decide_True by lia. simpl.
  rewrite Nat.mod_small by lia. do 2 f_equal. lia.
Qed.

Lemma randi_bits (n : nat) (g : Rng) (v : vec) (g' : Rng) :
  randi n 0 1 g = (v, g') → length v = n ∧ Forall is_bit v.
Proof.
  revert g v g'. induction n as [|n IH]; intros g v g'; simpl.
  - intros [= <- _]. by split.
  - destruct (randi n 0 1 _) as [v1 g1] eqn:E. intros [= <- _].
    destruct (IH _ _ _ E) as [Hl Hb]. split; [simpl; lia |].
    constructor; [| done]. unfold is_bit.
    pose proof (Z.mod_pos_bound (Z.of_nat (g 0%nat)) (1 - 0 + 1)). lia.
  Qed.

(** ** Reading bits *)

Lemma vec_at_lookup (v : vec) (k : nat) (x : Z) :
  v !! k = Some x → vec_at v k = Ok x.
Proof. unfold vec_at. by intros ->. Qed.

Lemma decode_be_acc (bits : list Z) (acc : Z) :
  fold_left (fun a b => 2 * a + b) bits acc
  = acc * 2 ^ Z.of_nat (length bits) + decode_be bits.
Proof.
  unfold decode_be. revert acc. induction bits as [|b bits IH]; intros acc.
  - simpl. lia.
  - cbn [fold_left length]. rewrite IH, (IH (2 * 0 + b)).
    rewrite Nat2Z.inj_succ, Z.pow_succ_r by lia. lia.
Qed.

Lemma decode_be_app (l1 l2 : list Z) :
  decode_be (l1 ++ l2) = decode_be l1 * 2 ^ Z.of_nat (length l2) + decode_be l2.
Proof. unfold decode_be at 1. rewrite fold_left_app. apply decode_be_acc. Qed.

Lemma decode_be_cons (b : Z) (bits : list Z) :
  decode_be (b :: bits) = b * 2 ^ Z.of_nat (length bits) + decode_be bits.
Proof. apply (decode_be_app [b] bits). Qed.

Lemma decode_be_bound (bits : list Z) :
  Forall is_bit bits → 0 ≤ decode_be bits < 2 ^ Z.of_nat (length bits).
Proof.
  induction 1 as [|b bits Hb _ IH].
  - cbn. lia.
  - rewrite decode_be_cons. cbn [length].
    rewrite Nat2Z.inj_succ, Z.pow_succ_r by lia.
    destruct Hb as [-> | ->]; lia.
Qed.

Lemma shift_in_small (val x : Z) :
  0 ≤ val → is_bit x → 2 * val + x < 2 ^ 31 →
  AddTask.shift_in val x = 2 * val + x.
Proof.
  intros Hv Hx Hlt. unfold AddTask.shift_in.
  rewrite Z.shiftl_mul_pow2 by lia. change (2 ^ 1) with 2.
  rewrite (wrap32_id (val * 2)) by (unfold int_range; destruct Hx; lia).
  rewrite wrap32_id by (unfold int_range; destruct Hx; lia). lia.
Qed.

(** Without overflow the [int] read from the bits is their value. *)
Lemma shift_in_fold_small (bits : list Z) (acc : Z) :
  Forall is_bit bits → 0 ≤ acc →
  (acc + 1) * 2 ^ Z.of_nat (length bits) ≤ 2 ^ 31 →
  fold_left AddTask.shift_in bits acc = fold_left (fun a b => 2 * a + b) bits acc.
Proof.
  intros Hb. revert acc. induction Hb as [|b bits Hb _ IH]; intros acc Ha Hlt.
  - done.
  - cbn [fold_left length] in *.
    rewrite Nat2Z.inj_succ, Z.pow_succ_r in Hlt by lia.
    assert (0 < 2 ^ Z.of_nat (length bits)) by (apply Z.pow_pos_nonneg; lia).
    assert (2 * acc + b + 1 ≤ 2 * (acc + 1)) by (destruct Hb; lia).
    rewrite shift_in_small; [| done | done | nia].
    apply IH; [destruct Hb; lia | nia].
Qed.

Lemma shift_in_fold_decode (bits : list Z) :
  Forall is_bit bits → (length bits ≤ 31)%nat →
  fold_left AddTask.shift_in bits 0 = decode_be bits.
Proof.
  intros Hb Hl. apply shift_in_fold_small; [done | lia |].
  rewrite Z.mul_1_l. apply Z.pow_le_mono_r; lia.
Qed.

Lemma shift_in_fold_zeros (n : nat) :
  fold_left AddTask.shift_in (replicate n 0) 0 = 0.
Proof. induction n as [|n IH]; [done |]. cbn [replicate fold_left]. exact IH. Qed.

Lemma read_bits_fold (v : vec) (lo n : nat) :
  (lo + n ≤ length v)%nat →
  AddTask.read_bits v lo n
  = Ok (fold_left AddTask.shift_in (take n (drop lo v)) 0).
Proof.
  unfold AddTask.read_bits. generalize 0 as val.
  revert lo. induction n as [|n IH]; intros lo val Hl; [done |].
  cbn [for_loop].
  destruct (lookup_lt_is_Some_2 v lo) as [x Hx]; [lia |].
  rewrite (vec_at_lookup _ _ _ Hx). simpl. rewrite IH by lia.
  by rewrite (drop_S _ _ _ Hx).
Qed.

(** ** The binary digits of the sum *)

Lemma land_1_mod (z : Z) : Z.land z 1 = z `mod` 2.
Proof. apply (Z.land_ones z 1). lia. Qed.

Lemma shiftr_1_div (z : Z) : z ≫ 1 = z `div` 2.
Proof. apply (Z.shiftr_div_pow2 z 1). lia. Qed.

Lemma binary_loop_spec (fuel : nat) (tot : Z) (acc : list Z) :
  tot < 2 ^ Z.of_nat fuel →
  ∃ ds, AddTask.binary_loop fuel tot acc = Ok (acc ++ ds)
        ∧ Forall is_bit ds
        ∧ (tot ≤ 0 → ds = [])
        ∧ (0 < tot → decode_be (reverse ds) = tot ∧ list.last ds = Some 1).
Proof.
  revert tot acc. induction fuel as [|fuel IH]; intros tot acc Hlt.
  - exists []. cbn in *. rewrite decide_False by lia.
    rewrite app_nil_r. repeat split; [done | lia | lia].
  - cbn [AddTask.binary_loop]. case_decide as Hpos.
    + rewrite Nat2Z.inj_succ, Z.pow_succ_r in Hlt by lia.
      assert (Hdiv : tot = 2 * (tot ≫ 1) + Z.land tot 1).
      { rewrite shiftr_1_div, land_1_mod. apply Z.div_mod. lia. }
      assert (Hb : is_bit (Z.land tot 1)).
      { rewrite land_1_mod. unfold is_bit.
        pose proof (Z.mod_pos_bound tot 2). lia. }
      destruct (IH (tot ≫ 1) (acc ++ [Z.land tot 1])) as (ds & -> & Hds & Hz & Hp).
      { destruct Hb; lia. }
      exists (Z.land tot 1 :: ds). rewrite <- app_assoc. split; [done |].
      split; [by constructor |]. split; [lia |]. intros _.
      destruct (decide (0 < tot ≫ 1)) as [Hq | Hq].
      * destruct (Hp Hq) as [Hdec Hlast]. split.
        -- rewrite reverse_cons, decode_be_app, Hdec. cbn. lia.
        -- destruct ds; [done | exact Hlast].
      * assert (0 ≤ tot ≫ 1) by (apply Z.shiftr_nonneg; lia).
        rewrite (Hz ltac:(lia)). cbn. split; [lia |]. f_equal.
        destruct Hb; lia.
    + exists []. rewrite app_nil_r. repeat split; [done | lia | lia].
Qed.

Lemma reverse_copy_spec (bs : list Z) :
  AddTask.reverse_copy bs = Ok (reverse bs).
Proof.
  unfold AddTask.reverse_copy.
  destruct (for_loop_total
    (fun j lab => x ← vec_at bs (length bs - j - 1); vec_put lab j x)
    (fun j lab => lab = take j (reverse bs) ++ replicate (length bs - j) 0)
    0 (length bs) (replicate (length bs) 0)) as (lab & -> & Hlab).
  - by rewrite Nat.sub_0_r.
  - intros j lab Hj ->.
    destruct (lookup_lt_is_Some_2 bs (length bs - j - 1)) as [x Hx]; [lia |].
    rewrite (vec_at_lookup _ _ _ Hx). simpl. unfold vec_put.
    assert (Hlen : length (take j (reverse bs)) = j).
    { rewrite length_take, length_reverse. lia. }
    rewrite decide_True
      by (rewrite length_app, Hlen, length_replicate; lia).
    eexists; split; [done |].
    replace (length bs - j)%nat with (S (length bs - S j)) by lia.
    cbn [replicate].
    rewrite insert_app_r_alt by lia. rewrite Hlen, Nat.sub_diag. cbn.
    assert (Hr : reverse bs !! j = Some x).
    { rewrite reverse_lookup by lia. rewrite <- Hx. f_equal. lia. }
    rewrite (take_S_r _ _ _ Hr), <- app_assoc. done.
  - f_equal. rewrite Hlab. cbn.
    rewrite Nat.sub_diag, app_nil_r, take_ge; [done |].
    rewrite length_reverse. lia.
Qed.

(** ** One item of AddTask *)

Lemma read_bits_A (bitsA bitsB : list Z) (n : nat) :
  n = length bitsA →
  AddTask.read_bits (bitsA ++ 2 :: bitsB) 0 n = Ok (int_of_bits bitsA).
Proof.
  intros ->. rewrite read_bits_fold by (rewrite length_app; cbn; lia).
  by rewrite drop_0, take_app_length.
Qed.

Lemma read_bits_B (bitsA bitsB : list Z) (n m : nat) :
  n = length bitsA → m = length bitsB →
  AddTask.read_bits (bitsA ++ 2 :: bitsB) (n + 1) m = Ok (int_of_bits bitsB).
Proof.
  intros -> ->. rewrite read_bits_fold by (rewrite length_app; cbn; lia).
  rewrite drop_app_add. cbn [drop]. by rewrite take_ge.
Qed.

Lemma binary_of_zero : binary_of 0 [0].
Proof.
  unfold binary_of. repeat split; [| done].
  constructor; [by left | constructor].
Qed.

(** What [build_item] does, in terms of the bits it draws. *)
Lemma build_item_spec (s : AddTask.loop_state) :
  ∃ (bitsA bitsB : list Z) (g' : Rng),
    length bitsA = AddTask.sizeA s ∧ length bitsB = AddTask.sizeB s
    ∧ Forall is_bit bitsA ∧ Forall is_bit bitsB
    ∧ let tot := wrap32 (int_of_bits bitsA + int_of_bits bitsB) in
      (tot < 0 → AddTask.build_item s = Err DomainError)
      ∧ (0 ≤ tot →
         ∃ vl, AddTask.build_item s
               = Ok (bitsA ++ 2 :: bitsB, vl,
                     AddTask.LoopState g' (AddTask.sizeA s) (AddTask.sizeB s))
               ∧ binary_of tot vl).
Proof.
  unfold AddTask.build_item.
  destruct (randi _ 0 1 _) as [v0 g] eqn:Er.
  destruct (randi_bits _ _ _ _ Er) as [Hlen Hbits].
  set (sA := AddTask.sizeA s) in *. set (sB := AddTask.sizeB s) in *.
  exists (take sA v0), (drop (S sA) v0), g.
  assert (HlA : length (take sA v0) = sA) by (rewrite length_take; lia).
  assert (HlB : length (drop (S sA) v0) = sB) by (rewrite length_drop; lia).
  split; [done |]. split; [done |].
  split; [by apply Forall_take |]. split; [by apply Forall_drop |].
  unfold vec_put. rewrite decide_True by lia. rewrite ok_bind.
  rewrite insert_take_drop by lia.
  rewrite !(read_bits_A _ _ sA), !(read_bits_B _ _ sA sB), !ok_bind by done.
  set (tot := wrap32 _).
  assert (Hr : int_range tot) by apply wrap32_range.
  destruct (binary_loop_spec 32 tot []) as (ds & -> & Hds & Hz & Hp).
  { unfold int_range in Hr. change (Z.of_nat 32) with 32. lia. }
  rewrite !ok_bind, app_nil_l. split.
  - intros Hneg. rewrite (Hz ltac:(lia)).
    rewrite decide_True by done. rewrite decide_True by lia. done.
  - intros Hpos. destruct (decide (tot = 0)) as [H0 | H0].
    + rewrite (Hz ltac:(lia)).
      rewrite decide_True by done. rewrite decide_False by lia.
      rewrite ok_bind, app_nil_l, reverse_copy_spec, ok_bind.
      exists [0]. rewrite H0. split; [done | apply binary_of_zero].
    + destruct (Hp ltac:(lia)) as [Hdec Hlast].
      rewrite decide_False by (intros ->; discriminate).
      rewrite ok_bind, reverse_copy_spec, ok_bind.
      exists (reverse ds). split; [done |].
      unfold binary_of. split; [by apply Forall_reverse |].
      split; [done |]. split; [done |]. intros _.
      by rewrite head_reverse.
Qed.

Lemma draw_sizes_fixed (task : AddTask.t) (s : AddTask.loop_state) :
  AddTask.draw_sizes task true s = Ok s.
Proof. done. Qed.

Lemma draw_sizes_variable (task : AddTask.t) (s : AddTask.loop_state) :
  (2 ≤ AddTask.bitLen task)%nat →
  ∃ a b g', AddTask.draw_sizes task false s = Ok (AddTask.LoopState g' a b)
            ∧ (2 ≤ a ≤ AddTask.bitLen task)%nat
            ∧ (2 ≤ b ≤ AddTask.bitLen task)%nat.
Proof.
  intros Hb. unfold AddTask.draw_sizes. simpl.
  destruct (RandInt_total 2 (AddTask.bitLen task + 1) (AddTask.rng s))
    as (a & g1 & Ea); [lia |].
  destruct (RandInt_total 2 (AddTask.bitLen task + 1) g1)
    as (b & g2 & Eb); [lia |].
  rewrite Ea. simpl. rewrite Eb. simpl.
  apply RandInt_Ok in Ea, Eb. exists a, b, g2. split; [done |]. lia.
Qed.

Lemma draw_sizes_empty (task : AddTask.t) (s : AddTask.loop_state) :
  (AddTask.bitLen task < 2)%nat →
  AddTask.draw_sizes task false s = Err EmptyRange.
Proof.
  intros Hb. unfold AddTask.draw_sizes. simpl.
  by rewrite RandInt_empty by lia.
Qed.

Lemma draw_sizes_Ok (task : AddTask.t) (fixedLength : bool)
    (s s1 : AddTask.loop_state) :
  AddTask.draw_sizes task fixedLength s = Ok s1 →
  if fixedLength then s1 = s
  else (2 ≤ AddTask.sizeA s1 ≤ AddTask.bitLen task)%nat
       ∧ (2 ≤ AddTask.sizeB s1 ≤ AddTask.bitLen task)%nat.
Proof.
  destruct fixedLength.
  - by intros [= <-].
  - destruct (decide (2 ≤ AddTask.bitLen task)%nat) as [Hb | Hb].
    + destruct (draw_sizes_variable task s Hb) as (a & b & g' & -> & Ha & Hb').
      by intros [= <-].
    + rewrite draw_sizes_empty by lia. discriminate.
Qed.

Lemma generate_item_Ok (task : AddTask.t) (fixedLength : bool)
    (s s' : AddTask.loop_state) (vi vl : list Z) :
  sizes_fixed task fixedLength s →
  AddTask.generate_item task fixedLength s = Ok (vi, vl, s') →
  add_item task fixedLength vi vl ∧ sizes_fixed task fixedLength s'.
Proof.
  intros Hs H. unfold AddTask.generate_item in H. ok_inv H.
  rename x into s1. apply draw_sizes_Ok in E.
  destruct (build_item_spec s1)
    as (bitsA & bitsB & g' & HlA & HlB & HbA & HbB & Hneg & Hpos).
  destruct (decide (wrap32 (int_of_bits bitsA + int_of_bits bitsB) < 0))
    as [Hlt | Hge].
  { rewrite (Hneg Hlt) in H. discriminate. }
  destruct (Hpos ltac:(lia)) as (vl' & Heq & Hbin).
  rewrite Heq in H. injection H as <- <- <-. split.
  - exists bitsA, bitsB. split; [done |]. split; [done |]. split; [done |].
    split; [| split; [lia | done]].
    rewrite HlA, HlB. destruct fixedLength; [| done].
    subst s1. by apply Hs.
  - intros ->. subst s1. cbn. by apply Hs.
Qed.

Lemma generate_loop_Ok (task : AddTask.t) (fixedLength : bool) (n : nat)
    (s s' : AddTask.loop_state) (vis vls : list (list Z)) :
  sizes_fixed task fixedLength s →
  AddTask.generate_loop task fixedLength n s = Ok (vis, vls, s') →
  length vis = n ∧ Forall2 (add_item task fixedLength) vis vls.
Proof.
  revert s vis vls. induction n as [|n IH]; intros s vis vls Hs H.
  - injection H as <- <- <-. by split.
  - cbn [AddTask.generate_loop] in H. ok_inv H.
    destruct x as [[vi vl] s1]. ok_inv H. destruct x as [[vis' vls'] s2].
    injection H as <- <- <-.
    destruct (generate_item_Ok _ _ _ _ _ _ Hs E) as [Hitem Hs1].
    destruct (IH _ _ _ Hs1 E0) as [Hlen Hall].
    split; [cbn; lia | by constructor].
Qed.

Lemma sum_small (bitsA bitsB : list Z) :
  Forall is_bit bitsA → Forall is_bit bitsB →
  (length bitsA ≤ 30)%nat → (length bitsB ≤ 30)%nat →
  wrap32 (int_of_bits bitsA + int_of_bits bitsB)
  = decode_be bitsA + decode_be bitsB.
Proof.
  intros HbA HbB HlA HlB. unfold int_of_bits.
  rewrite !shift_in_fold_decode by (done || lia).
  pose proof (decode_be_bound _ HbA) as HA.
  pose proof (decode_be_bound _ HbB) as HB.
  assert (2 ^ Z.of_nat (length bitsA) ≤ 2 ^ 30)
    by (apply Z.pow_le_mono_r; lia).
  assert (2 ^ Z.of_nat (length bitsB) ≤ 2 ^ 30)
    by (apply Z.pow_le_mono_r; lia).
  apply wrap32_id. unfold int_range. lia.
Qed.

Lemma generate_item_total (task : AddTask.t) (fixedLength : bool)
    (s : AddTask.loop_state) :
  sizes_fixed task fixedLength s →
  (fixedLength = false → (2 ≤ AddTask.bitLen task)%nat) →
  (AddTask.bitLen task ≤ 30)%nat →
  ∃ r, AddTask.generate_item task fixedLength s = Ok r.
Proof.
  intros Hs Hvar H30. unfold AddTask.generate_item.
  assert (∃ s1, AddTask.draw_sizes task fixedLength s = Ok s1
                ∧ (AddTask.sizeA s1 ≤ 30)%nat ∧ (AddTask.sizeB s1 ≤ 30)%nat)
    as (s1 & -> & HA & HB).
  { destruct fixedLength.
    - exists s. destruct (Hs eq_refl) as [-> ->]. by rewrite draw_sizes_fixed.
    - destruct (draw_sizes_variable task s (Hvar eq_refl))
        as (a & b & g' & -> & Ha & Hb).
      eexists. split; [done |]. cbn. lia. }
  simpl.
  destruct (build_item_spec s1)
    as (bitsA & bitsB & g' & HlA & HlB & HbA & HbB & _ & Hpos).
  destruct Hpos as (vl & -> & _); [| by eexists].
  rewrite sum_small by (done || lia).
  pose proof (decode_be_bound _ HbA). pose proof (decode_be_bound _ HbB). lia.
Qed.

Lemma generate_loop_total (task : AddTask.t) (fixedLength : bool) (n : nat)
    (s : AddTask.loop_state) :
  sizes_fixed task fixedLength s →
  (fixedLength = false → (2 ≤ AddTask.bitLen task)%nat) →
  (AddTask.bitLen task ≤ 30)%nat →
  ∃ r, AddTask.generate_loop task fixedLength n s = Ok r.
Proof.
  intros Hs Hvar H30. revert s Hs. induction n as [|n IH]; intros s Hs.
  - by eexists.
  - cbn [AddTask.generate_loop].
    destruct (generate_item_total task fixedLength s Hs Hvar H30)
      as ([[vi vl] s1] & E).
    rewrite E. simpl.
    destruct (generate_item_Ok _ _ _ _ _ _ Hs E) as [_ Hs1].
    destruct (IH s1 Hs1) as ([[vis vls] s2] & ->). simpl. by eexists.
Qed.

(** ** Lengths of the labels *)

Lemma binary_of_length (tot : Z) (vl : list Z) (k : nat) :
  binary_of tot vl → 0 ≤ tot < 2 ^ Z.of_nat k → (1 ≤ k)%nat →
  (1 ≤ length vl ≤ k)%nat.
Proof.
  intros (Hb & Hdec & Hz & Hnz) Ht Hk.
  destruct (decide (tot = 0)) as [H0 | H0].
  - rewrite (Hz H0). cbn. lia.
  - specialize (Hnz H0). destruct vl as [|d r]; [done |].
    injection Hnz as ->. cbn [length]. split; [lia |].
    rewrite decode_be_cons in Hdec.
    pose proof (Forall_inv_tail Hb) as Hr.
    pose proof (decode_be_bound _ Hr).
    assert (Z.of_nat (length r) < Z.of_nat k); [| lia].
    apply (Z.pow_lt_mono_r_iff 2 (Z.of_nat (length r)) (Z.of_nat k)); lia.
Qed.

Lemma add_item_length (task : AddTask.t) (fixedLength : bool)
    (vi vl : list Z) :
  add_item task fixedLength vi vl → (1 ≤ length vl ≤ length vi)%nat.
Proof.
  intros (bitsA & bitsB & -> & HbA & HbB & _ & Hpos & Hbin).
  rewrite length_app. cbn [length].
  set (lA := length bitsA). set (lB := length bitsB).
  destruct (decide (lA ≤ 30 ∧ lB ≤ 30)%nat) as [[HA HB] | Hbig].
  - rewrite sum_small in Hbin, Hpos by done.
    pose proof (decode_be_bound _ HbA). pose proof (decode_be_bound _ HbB).
    assert (2 ^ Z.of_nat lA ≤ 2 ^ Z.of_nat (lA `max` lB))
      by (apply Z.pow_le_mono_r; lia).
    assert (2 ^ Z.of_nat lB ≤ 2 ^ Z.of_nat (lA `max` lB))
      by (apply Z.pow_le_mono_r; lia).
    enough (1 ≤ length vl ≤ S (lA `max` lB))%nat by lia.
    apply (binary_of_length _ _ _ Hbin); [| lia].
    rewrite Nat2Z.inj_succ, Z.pow_succ_r by lia. subst lA lB. lia.
  - pose proof (wrap32_range (int_of_bits bitsA + int_of_bits bitsB)) as Hr.
    enough (1 ≤ length vl ≤ 31)%nat by lia.
    apply (binary_of_length _ _ _ Hbin); [| lia].
    unfold int_range in Hr. change (Z.of_nat 31) with 31. lia.
Qed.

Lemma add_item_symbols (task : AddTask.t) (fixedLength : bool)
    (vi vl : list Z) :
  add_item task fixedLength vi vl →
  Forall is_symbol vi ∧ Forall is_symbol vl.
Proof.
  assert (Hbs : ∀ l, Forall is_bit l → Forall is_symbol l).
  { intros l. apply Forall_impl. unfold is_bit, is_symbol. tauto. }
  intros (bitsA & bitsB & -> & HbA & HbB & _ & _ & Hbin & _). split.
  - apply Forall_app. split; [by apply Hbs |].
    constructor; [unfold is_symbol; tauto | by apply Hbs].
  - by apply Hbs.
Qed.

(** ** The one-hot encoding *)

Lemma length_indicator (x : Z) : length (indicator x) = 3%nat.
Proof. done. Qed.

Lemma length_onehot (v : list Z) : length (onehot v) = (3 * length v)%nat.
Proof.
  unfold onehot. induction v as [|x v IH]; [done |].
  cbn [flat_map]. rewrite length_app, IH, length_indicator. cbn. lia.
Qed.

Lemma onehot_app (v1 v2 : list Z) : onehot (v1 ++ v2) = onehot v1 ++ onehot v2.
Proof. apply flat_map_app. Qed.

Lemma onehot_snoc (v : list Z) (x : Z) : onehot (v ++ [x]) = onehot v ++ indicator x.
Proof. rewrite onehot_app. by f_equal. Qed.

Lemma indicator_put (x : Z) (k : nat) :
  is_symbol x →
  <[Z.to_nat x := 1]> (replicate (3 * S k) 0) = indicator x ++ replicate (3 * k) 0.
Proof.
  intros Hx. replace (3 * S k)%nat with (S (S (S (3 * k)))) by lia.
  destruct Hx as [-> | [-> | ->]]; reflexivity.
Qed.

Lemma Binarize_item_spec (v : list Z) :
  Forall is_symbol v → AddTask.Binarize_item v = Ok (onehot_column v).
Proof.
  intros Hv. unfold AddTask.Binarize_item.
  destruct (for_loop_total
    (fun j m => x ← vec_at v j; val ← AddTask.to_size_t x; mat_put m val j 1)
    (fun j m => n_rows m = 3%nat ∧ n_cols m = length v
                ∧ mem m = onehot (take j v) ++ replicate (3 * (length v - j)) 0)
    0 (length v) (zeros 3 (length v))) as (m & -> & Hr & Hc & Hm).
  - cbn. by rewrite Nat.sub_0_r.
  - intros j m Hj (Hr & Hc & Hm).
    destruct (lookup_lt_is_Some_2 v j) as [x Hx]; [lia |].
    rewrite (vec_at_lookup _ _ _ Hx). simpl.
    assert (Hsym : is_symbol x) by (by eapply Forall_lookup_1).
    unfold AddTask.to_size_t.
    rewrite decide_True by (destruct Hsym as [-> | [-> | ->]]; lia). simpl.
    assert (Hlen : length (onehot (take j v)) = (3 * j)%nat).
    { rewrite length_onehot, length_take. lia. }
    unfold mat_put. rewrite Hr, Hm.
    rewrite decide_True.
    2:{ rewrite length_app, Hlen, length_replicate.
        destruct Hsym as [-> | [-> | ->]]; cbn; lia. }
    eexists. split; [done |]. cbn [n_rows n_cols mem].
    split; [done |]. split; [done |].
    rewrite insert_app_r_alt by lia. rewrite Hlen.
    replace (Z.to_nat x + j * 3 - 3 * j)%nat with (Z.to_nat x) by lia.
    replace (length v - j)%nat with (S (length v - S j)) by lia.
    rewrite indicator_put by done.
    by rewrite (take_S_r _ _ _ Hx), onehot_snoc, <- app_assoc.
  - simpl. unfold reshape, onehot_column, n_elem. rewrite Hr, Hc, Hm.
    cbn [Nat.add]. rewrite Nat.sub_diag, Nat.mul_0_r. cbn [replicate].
    rewrite app_nil_r, take_ge by lia. rewrite Nat.mul_1_r.
    by rewrite resize_all_alt by (rewrite length_onehot; lia).
Qed.

Lemma Binarize_spec (input : list (list Z)) :
  Forall (Forall is_symbol) input →
  AddTask.Binarize input = Ok (onehot_column <$> input).
Proof.
  unfold AddTask.Binarize. induction 1 as [|v input Hv _ IH]; [done |].
  cbn [mapM]. rewrite (Binarize_item_spec v Hv). simpl. by rewrite IH.
Qed.

Lemma field_get_lookup {A : Type} (f : list A) (i : nat) (x : A) :
  f !! i = Some x → field_get f i = Ok x.
Proof. unfold field_get. by intros ->. Qed.

(** The loop of lines 107-110. *)
Lemma reshape_loop_spec (input labels : list mat) :
  length input = length labels →
  for_loop 0 (length input)
    (fun i labels =>
       inp ← field_get input i;
       lab ← field_get labels i;
       Ok (<[i := reshape lab (n_elem inp) 1]> labels))
    labels
  = Ok (zip_with (fun inp lab => reshape lab (n_elem inp) 1) input labels).
Proof.
  intros Hlen. set (f := fun inp lab => reshape lab (n_elem inp) 1).
  destruct (for_loop_total
    (fun i labels =>
       inp ← field_get input i;
       lab ← field_get labels i;
       Ok (<[i := reshape lab (n_elem inp) 1]> labels))
    (fun i cur => cur = take i (zip_with f input labels) ++ drop i labels)
    0 (length input) labels) as (cur & -> & Hcur).
  - by rewrite take_0, drop_0.
  - intros i cur Hi ->.
    destruct (lookup_lt_is_Some_2 input i) as [inp Hinp]; [lia |].
    destruct (lookup_lt_is_Some_2 labels i) as [lab Hlab]; [lia |].
    assert (Hz : zip_with f input labels !! i = Some (f inp lab)).
    { rewrite lookup_zip_with, Hinp. simpl. by rewrite Hlab. }
    assert (Hl : length (take i (zip_with f input labels)) = i).
    { rewrite length_take, length_zip_with. lia. }
    rewrite (field_get_lookup _ _ _ Hinp). simpl.
    rewrite (field_get_lookup _ i lab).
    2:{ rewrite lookup_app_r by lia. rewrite Hl, Nat.sub_diag.
        by rewrite lookup_drop, Nat.add_0_r. }
    simpl. eexists. split; [done |].
    rewrite insert_app_r_alt by lia. rewrite Hl, Nat.sub_diag.
    rewrite (drop_S _ _ _ Hlab). cbn.
    by rewrite (take_S_r _ _ _ Hz), <- app_assoc.
  - f_equal. rewrite Hcur. cbn.
    rewrite take_ge by (rewrite length_zip_with; lia).
    rewrite drop_ge by lia. apply app_nil_r.
Qed.

(** ** The field form of [AddTask::Generate] *)

Lemma Generate_of_sequences (task : AddTask.t) (batchSize : nat)
    (fixedLength : bool) (g : Rng) (vis vls : list (list Z))
    (s : AddTask.loop_state) :
  AddTask.GenerateSequences task batchSize fixedLength g = Ok (vis, vls, s) →
  AddTask.Generate task batchSize fixedLength g
  = Ok (onehot_column <$> vis, zip_with label_column vis vls, AddTask.rng s).
Proof.
  intros E. unfold AddTask.Generate. rewrite E. simpl.
  apply generate_loop_Ok in E as [Hlen Hall]; [| done].
  assert (Forall (Forall is_symbol) vis ∧ Forall (Forall is_symbol) vls)
    as [Hvis Hvls].
  { clear Hlen. induction Hall as [|vi vl vis vls Hitem _ [IH1 IH2]]; [done |].
    apply add_item_symbols in Hitem as [? ?]. split; by constructor. }
  rewrite (Binarize_spec _ Hvis). simpl.
  rewrite (Binarize_spec _ Hvls). simpl.
  apply Forall2_length in Hall.
  rewrite decide_False by (rewrite !length_fmap; lia).
  rewrite reshape_loop_spec by (rewrite !length_fmap; lia). simpl.
  by rewrite zip_with_fmap_l, zip_with_fmap_r.
Qed.

Lemma Generate_Ok (task : AddTask.t) (batchSize : nat) (fixedLength : bool)
    (g g' : Rng) (input labels : list mat) :
  AddTask.Generate task batchSize fixedLength g = Ok (input, labels, g') →
  ∃ vis vls s,
    AddTask.GenerateSequences task batchSize fixedLength g = Ok (vis, vls, s)
    ∧ length vis = batchSize
    ∧ Forall2 (add_item task fixedLength) vis vls
    ∧ input = onehot_column <$> vis
    ∧ labels = zip_with label_column vis vls.
Proof.
  intros H.
  destruct (AddTask.GenerateSequences task batchSize fixedLength g)
    as [[[vis vls] s] | e] eqn:E.
  - rewrite (Generate_of_sequences _ _ _ _ _ _ _ E) in H.
    injection H as <- <- <-. exists vis, vls, s.
    apply generate_loop_Ok in E as [Hlen Hall]; done.
  - unfold AddTask.Generate in H. rewrite E in H. discriminate.
Qed.

Lemma label_column_padded (vi vl : list Z) :
  (length vl ≤ length vi)%nat →
  label_column vi vl
  = Mat (3 * length vi) 1
        (onehot vl ++ replicate (3 * (length vi - length vl)) 0).
Proof.
  intros Hl. unfold label_column, reshape, onehot_column, n_elem. cbn.
  rewrite !Nat.mul_1_r. f_equal.
  rewrite resize_ge by (rewrite length_onehot; lia).
  rewrite length_onehot. do 2 f_equal. lia.
Qed.

(** ** Reading the encodings back *)

Lemma onehot_decode_zeros (n : nat) : onehot_decode (replicate n 0) = [].
Proof. destruct n as [|[|[|n]]]; reflexivity. Qed.

Lemma onehot_decode_app (v rest : list Z) :
  Forall is_symbol v →
  onehot_decode (onehot v ++ rest) = v ++ onehot_decode rest.
Proof.
  induction 1 as [|x v Hx _ IH]; [done |].
  change (onehot (x :: v)) with (indicator x ++ onehot v).
  rewrite <- app_assoc.
  destruct Hx as [-> | [-> | ->]]; cbn; by rewrite IH.
Qed.

Lemma onehot_decode_onehot (v : list Z) :
  Forall is_symbol v → onehot_decode (onehot v) = v.
Proof.
  intros Hv. rewrite <- (app_nil_r (onehot v)).
  rewrite onehot_decode_app by done. apply app_nil_r.
Qed.

Lemma onehot_decode_label (vi vl : list Z) :
  Forall is_symbol vl → (length vl ≤ length vi)%nat →
  onehot_decode (mem (label_column vi vl)) = vl.
Proof.
  intros Hv Hl. rewrite label_column_padded by done. cbn [mem].
  rewrite onehot_decode_app by done.
  rewrite onehot_decode_zeros. apply app_nil_r.
Qed.

Lemma operandA_split (bitsA bitsB : list Z) :
  Forall is_bit bitsA → operandA (bitsA ++ 2 :: bitsB) = bitsA.
Proof.
  induction 1 as [|x bitsA Hx _ IH]; cbn.
  - by rewrite decide_True.
  - rewrite decide_False by (destruct Hx; lia). by rewrite IH.
Qed.

Lemma operandB_split (bitsA bitsB : list Z) :
  Forall is_bit bitsA → operandB (bitsA ++ 2 :: bitsB) = bitsB.
Proof.
  induction 1 as [|x bitsA Hx _ IH]; cbn.
  - by rewrite decide_True.
  - by rewrite decide_False by (destruct Hx; lia).
Qed.

(** The items of the encoded batch, by index. *)
Lemma Generate_lookup (task : AddTask.t) (fixedLength : bool)
    (vis vls : list (list Z)) (i : nat) (inp lab : mat) :
  Forall2 (add_item task fixedLength) vis vls →
  (onehot_column <$> vis) !! i = Some inp →
  zip_with label_column vis vls !! i = Some lab →
  ∃ vi vl, vis !! i = Some vi ∧ vls !! i = Some vl
           ∧ add_item task fixedLength vi vl
           ∧ inp = onehot_column vi ∧ lab = label_column vi vl.
Proof.
  intros Hall Hinp Hlab.
  apply lookup_zip_with_Some in Hlab as (vi & vl & -> & Hvi & Hvl).
  rewrite list_lookup_fmap, Hvi in Hinp. injection Hinp as <-.
  exists vi, vl. repeat split; try done.
  by eapply Forall2_lookup_lr.
Qed.

(** C1: the label does not always decode to the sum of the operands.  The
    constructor accepts [AddTask(32)].  With operand A made of 32 ones,
    that is [2^32 - 1], and operand B equal to 1, the [int] [valA] of
    lines 58-63 wraps to [-1], [tot] is 0, the check of lines 79-87 sees
    [valA + valB = 0] and lets the empty digit sequence pass, and
    [Generate] returns the label [[0]]: it decodes to 0, while the two
    operands decoded from the returned input add up to [2^32]. *)
Theorem C1_wrong_label_at_32_bits :
  AddTask.new 32 = Ok (AddTask.Build 32)
  ∧ ∃ (inp lab : mat) (g' : Rng),
      AddTask.Generate (AddTask.Build 32) 1 true tape_carry
      = Ok ([inp], [lab], g')
      ∧ decode_be (onehot_decode (mem lab)) = 0
      ∧ decode_be (operandA (onehot_decode (mem inp))) = 2 ^ 32 - 1
      ∧ decode_be (operandB (onehot_decode (mem inp))) = 1
      ∧ decode_be (onehot_decode (mem lab))
        ≠ decode_be (operandA (onehot_decode (mem inp)))
          + decode_be (operandB (onehot_decode (mem inp))).
Proof.
  split; [done |].
  destruct (AddTask.Generate (AddTask.Build 32) 1 true tape_carry)
    as [[[input labels] g'] | e] eqn:E; [| by vm_compute in E].
  vm_compute in E. injection E as <- <- <-.
  eexists _, _, _. split; [reflexivity |].
  split; [reflexivity |]. split; [reflexivity |].
  split; [reflexivity |]. by vm_compute.
Qed.

(** C2 (as amended): after the field form of [AddTask::Generate] returns,
    every label item is a single column whose element count is that of
    the input item of the same index, 3 times the length of the input
    sequence: the one-hot encoding of the label's digits (3 entries per
    digit), followed by zeros up to that length. *)
Theorem C2_label_column_shape (task : AddTask.t) (batchSize : nat)
    (fixedLength : bool) (g g' : Rng) (vis vls : list (list Z))
    (s : AddTask.loop_state) (input labels : list mat) :
  AddTask.GenerateSequences task batchSize fixedLength g = Ok (vis, vls, s) →
  AddTask.Generate task batchSize fixedLength g = Ok (input, labels, g') →
  length labels = batchSize
  ∧ ∀ (i : nat) (vi vl : list Z) (inp lab : mat),
      vis !! i = Some vi → vls !! i = Some vl →
      input !! i = Some inp → labels !! i = Some lab →
      n_cols lab = 1%nat
      ∧ n_rows lab = n_elem inp
      ∧ n_elem inp = (3 * length vi)%nat
      ∧ length (mem lab) = n_elem inp
      ∧ (3 * length vl ≤ n_elem inp)%nat
      ∧ mem lab = onehot vl ++ replicate (n_elem inp - 3 * length vl) 0.
Proof.
  intros Hseq H.
  rewrite (Generate_of_sequences _ _ _ _ _ _ _ Hseq) in H.
  injection H as <- <- <-.
  apply generate_loop_Ok in Hseq as [Hlen Hall]; [| done].
  apply Forall2_length in Hall as Hlen2.
  split; [rewrite length_zip_with; lia |].
  intros i vi vl inp lab Hvi Hvl Hinp Hlab.
  destruct (Generate_lookup _ _ _ _ _ _ _ Hall Hinp Hlab)
    as (vi' & vl' & Hvi' & Hvl' & Hitem & -> & ->).
  assert (vi' = vi) as -> by congruence.
  assert (vl' = vl) as -> by congruence.
  pose proof (add_item_length _ _ _ _ Hitem) as [_ Hle].
  rewrite label_column_padded by done.
  unfold n_elem. cbn [onehot_column n_rows n_cols mem].
  rewrite Nat.mul_1_r, length_app, length_onehot, length_replicate.
  repeat split; try done; try lia.
  do 2 f_equal. lia.
Qed.

Lemma C2_label_column_shape_witness :
  ∃ (inp lab : mat) (vi vl : list Z),
    vi = [1; 0; 1; 1; 2; 0; 0; 1; 0] ∧ vl = [1; 1; 0; 1]
    ∧ n_cols lab = 1%nat ∧ n_rows lab = n_elem inp
    ∧ n_elem inp = (3 * length vi)%nat
    ∧ length (mem lab) = n_elem inp
    ∧ (3 * length vl ≤ n_elem inp)%nat
    ∧ mem lab = onehot vl ++ replicate (n_elem inp - 3 * length vl) 0.
Proof.
  destruct (AddTask.GenerateSequences (AddTask.Build 4) 1 true tape_11_plus_2)
    as [[[vis vls] s] | e] eqn:Eseq; [| by vm_compute in Eseq].
  destruct (AddTask.Generate (AddTask.Build 4) 1 true tape_11_plus_2)
    as [[[input labels] g'] | e] eqn:E; [| by vm_compute in E].
  pose proof (C2_label_column_shape _ _ _ _ _ _ _ _ _ _ Eseq E) as [_ Hshape].
  vm_compute in Eseq. injection Eseq as <- <- <-.
  vm_compute in E. injection E as <- <- <-.
  eexists _, _, _, _. split; [reflexivity |]. split; [reflexivity |].
  exact (Hshape 0%nat _ _ _ _ eq_refl eq_refl eq_refl eq_refl).
Defined.

(** C2 as stated fails: in the spec's own example ([AddTask(4)], operands
    [1011] and [0010]) the label has the 4 digits [1101], whose one-hot
    encoding has 12 elements, but the label item returned has the 27
    elements of the input item. *)
Lemma C2_counterexample :
  ∃ (inp lab : mat) (s : AddTask.loop_state) (g' : Rng),
    AddTask.GenerateSequences (AddTask.Build 4) 1 true tape_11_plus_2
    = Ok ([[1; 0; 1; 1; 2; 0; 0; 1; 0]], [[1; 1; 0; 1]], s)
    ∧ AddTask.Generate (AddTask.Build 4) 1 true tape_11_plus_2
      = Ok ([inp], [lab], g')
    ∧ n_elem lab = 27%nat
    ∧ length (mem lab) = 27%nat
    ∧ n_elem lab ≠ (3 * length [1; 1; 0; 1])%nat.
Proof.
  destruct (AddTask.GenerateSequences (AddTask.Build 4) 1 true tape_11_plus_2)
    as [[[vis vls] s] | e] eqn:Eseq; [| by vm_compute in Eseq].
  destruct (AddTask.Generate (AddTask.Build 4) 1 true tape_11_plus_2)
    as [[[input labels] g'] | e] eqn:E; [| by vm_compute in E].
  vm_compute in Eseq. injection Eseq as <- <- <-.
  vm_compute in E. injection E as <- <- <-.
  eexists _, _, _, _. split; [reflexivity |]. split; [reflexivity |].
  split; [reflexivity |]. split; [reflexivity |]. by vm_compute.
Qed.

(** C5: every input sequence that the loop of [AddTask::Generate] builds
    has length [sizeA + sizeB + 1], where both sizes are [bitLen] in the
    fixed-length mode and lie in [2, bitLen] otherwise; it holds the
    separator 2 at position [sizeA] and nowhere else, and a bit at every
    other position. *)
Theorem C5_input_sequence_layout (task : AddTask.t) (batchSize : nat)
    (fixedLength : bool) (g : Rng) (vis vls : list (list Z))
    (s : AddTask.loop_state) :
  AddTask.GenerateSequences task batchSize fixedLength g = Ok (vis, vls, s) →
  length vis = batchSize
  ∧ ∀ (i : nat) (vi : list Z), vis !! i = Some vi →
      ∃ sizeA sizeB : nat,
        (if fixedLength
         then sizeA = AddTask.bitLen task ∧ sizeB = AddTask.bitLen task
         else (2 ≤ sizeA ≤ AddTask.bitLen task)%nat
              ∧ (2 ≤ sizeB ≤ AddTask.bitLen task)%nat)
        ∧ length vi = (sizeA + sizeB + 1)%nat
        ∧ vi !! sizeA = Some 2
        ∧ (∀ k : nat, vi !! k = Some 2 → k = sizeA)
        ∧ (∀ (k : nat) (x : Z), vi !! k = Some x → k ≠ sizeA → is_bit x).
Proof.
  intros Hseq. apply generate_loop_Ok in Hseq as [Hlen Hall]; [| done].
  split; [done |]. intros i vi Hvi.
  destruct (Forall2_lookup_l _ _ _ _ _ Hall Hvi) as (vl & _ & Hitem).
  destruct Hitem as (bitsA & bitsB & -> & HbA & HbB & Hsz & _).
  assert (Hbits : ∀ (k : nat) (x : Z),
            (bitsA ++ 2 :: bitsB) !! k = Some x → k ≠ length bitsA → is_bit x).
  { intros k x Hk Hne.
    destruct (decide (k < length bitsA)%nat) as [Hlt | Hge].
    - rewrite lookup_app_l in Hk by done.
      exact (Forall_lookup_1 _ _ _ _ HbA Hk).
    - rewrite lookup_app_r in Hk by lia.
      destruct (k - length bitsA)%nat as [|k'] eqn:Ek; [lia |].
      cbn in Hk. exact (Forall_lookup_1 _ _ _ _ HbB Hk). }
  exists (length bitsA), (length bitsB). split; [done |].
  split; [rewrite length_app; cbn; lia |].
  split; [by apply list_lookup_middle |].
  split; [| done].
  intros k Hk. destruct (decide (k = length bitsA)) as [-> | Hne]; [done |].
  destruct (Hbits k 2 Hk Hne); lia.
Qed.

Lemma C5_input_sequence_layout_witness :
  ∃ (vi : list Z) (sizeA sizeB : nat),
    vi = [1; 1; 0; 2; 0; 1]
    ∧ (2 ≤ sizeA ≤ 4)%nat ∧ (2 ≤ sizeB ≤ 4)%nat
    ∧ length vi = (sizeA + sizeB + 1)%nat
    ∧ vi !! sizeA = Some 2
    ∧ (∀ k : nat, vi !! k = Some 2 → k = sizeA)
    ∧ (∀ (k : nat) (x : Z), vi !! k = Some x → k ≠ sizeA → is_bit x).
Proof.
  destruct (AddTask.GenerateSequences (AddTask.Build 4) 2 false tape_11_plus_2)
    as [[[vis vls] s] | e] eqn:Eseq; [| by vm_compute in Eseq].
  pose proof (C5_input_sequence_layout _ _ _ _ _ _ _ Eseq) as [_ Hlay].
  vm_compute in Eseq. injection Eseq as <- <- <-.
  destruct (Hlay 0%nat _ eq_refl) as (sizeA & sizeB & [HA HB] & Hrest).
  exists [1; 1; 0; 2; 0; 1], sizeA, sizeB.
  split; [reflexivity |]. split; [exact HA |]. split; [exact HB |].
  exact Hrest.
Defined.

(** Every pair of sizes of the range is drawn for some tape. *)
Lemma draw_sizes_onto (task : AddTask.t) (s : AddTask.loop_state)
    (a b : nat) (g' : Rng) :
  (2 ≤ a ≤ AddTask.bitLen task)%nat → (2 ≤ b ≤ AddTask.bitLen task)%nat →
  ∃ g, AddTask.draw_sizes task false
         (AddTask.LoopState g (AddTask.sizeA s) (AddTask.sizeB s))
       = Ok (AddTask.LoopState g' a b).
Proof.
  intros Ha Hb. eexists. unfold AddTask.draw_sizes. cbn [negb AddTask.rng].
  rewrite (RandInt_onto 2 _ a) by lia. rewrite ok_bind.
  rewrite (RandInt_onto 2 _ b g') by lia. by rewrite ok_bind.
Qed.

(** ** Binarize *)

Lemma onehot_lookup (v : list Z) (j r : nat) (x : Z) :
  v !! j = Some x → (r < 3)%nat →
  onehot v !! (3 * j + r)%nat
  = Some (if decide (Z.of_nat r = x) then 1 else 0).
Proof.
  intros Hx Hr. rewrite <- (take_drop_middle _ _ _ Hx).
  rewrite onehot_app. change (onehot (x :: ?l)) with (indicator x ++ onehot l).
  assert (Hlen : length (onehot (take j v)) = (3 * j)%nat).
  { rewrite length_onehot, length_take.
    apply lookup_lt_Some in Hx. lia. }
  rewrite lookup_app_r by lia. rewrite Hlen.
  replace (3 * j + r - 3 * j)%nat with r by lia.
  rewrite lookup_app_l by (rewrite length_indicator; lia).
  destruct r as [|[|[|r]]]; [done | done | done | lia].
Qed.

(** C6: on a batch whose sequences hold only the symbols 0, 1 and 2,
    [AddTask::Binarize] returns a batch with as many items; item [i] is a
    single column of length [3 * len(input_i)], and for each position [j]
    its entries [3j], [3j+1], [3j+2] are all 0 except a single 1 at offset
    [input_i[j]]. *)
Theorem C6_Binarize_one_hot (input : list (list Z)) :
  Forall (Forall is_symbol) input →
  ∃ output : list mat,
    AddTask.Binarize input = Ok output
    ∧ length output = length input
    ∧ ∀ (i : nat) (v : list Z), input !! i = Some v →
        ∃ m : mat,
          output !! i = Some m
          ∧ n_cols m = 1%nat
          ∧ n_rows m = (3 * length v)%nat
          ∧ length (mem m) = (3 * length v)%nat
          ∧ ∀ (j r : nat) (x : Z), v !! j = Some x → (r < 3)%nat →
              mem m !! (3 * j + r)%nat
              = Some (if decide (Z.of_nat r = x) then 1 else 0).
Proof.
  intros Hin. exists (onehot_column <$> input).
  split; [by apply Binarize_spec |]. split; [by rewrite length_fmap |].
  intros i v Hv. exists (onehot_column v).
  split; [by rewrite list_lookup_fmap, Hv |].
  cbn [onehot_column n_rows n_cols mem].
  split; [done |]. split; [done |]. split; [by rewrite length_onehot |].
  intros j r x. apply onehot_lookup.
Qed.

Lemma C6_Binarize_one_hot_witness :
  ∃ output : list mat,
    AddTask.Binarize [[1; 2; 0]; [2]] = Ok output
    ∧ output = [Mat 9 1 [0; 1; 0; 0; 0; 1; 1; 0; 0]; Mat 3 1 [0; 0; 1]]
    ∧ length output = 2%nat.
Proof.
  assert (Hin : Forall (Forall is_symbol) [[1; 2; 0]; [2]]).
  { repeat constructor; unfold is_symbol; lia. }
  destruct (C6_Binarize_one_hot _ Hin) as (output & Hout & Hlen & _).
  exists output. split; [exact Hout |]. split; [| exact Hlen].
  vm_compute in Hout. by injection Hout as <-.
Defined.

(** ** The label sequence *)

Lemma int_of_bits_zeros (n : nat) : int_of_bits (replicate n 0) = 0.
Proof. apply shift_in_fold_zeros. Qed.

(** C7: a non-zero sum can get the label of zero.  In the run of
    [AddTask(32)] with operand A made of 32 ones and operand B equal to 1,
    the loop of [AddTask::Generate] builds the label sequence [[0]]: the
    [int] sum [valA + valB] of line 72 has wrapped to 0.  The sum of the
    two operands of the input sequence is [2^32], and [[0]] is not its
    binary representation. *)
Theorem C7_zero_label_for_nonzero_sum :
  ∃ (vi : list Z) (s : AddTask.loop_state),
    AddTask.GenerateSequences (AddTask.Build 32) 1 true tape_carry
    = Ok ([vi], [[0]], s)
    ∧ operandA vi = replicate 32 1
    ∧ operandB vi = replicate 31 0 ++ [1]
    ∧ decode_be (operandA vi) + decode_be (operandB vi) = 2 ^ 32
    ∧ ¬ binary_of (decode_be (operandA vi) + decode_be (operandB vi)) [0].
Proof.
  destruct (AddTask.GenerateSequences (AddTask.Build 32) 1 true tape_carry)
    as [[[vis vls] s] | e] eqn:E; [| by vm_compute in E].
  vm_compute in E. injection E as <- <- <-.
  eexists _, _. split; [reflexivity |].
  split; [reflexivity |]. split; [reflexivity |].
  split; [reflexivity |].
  intros (_ & Hdec & _). by vm_compute in Hdec.
Qed.

(** ** Construction *)

(** C8: [AddTask] construction succeeds for every [bitLen >= 1] and fails
    with [std::invalid_argument] for [bitLen <= 0], that is for
    [bitLen = 0], the parameter being unsigned.  The constructor takes no
    random source: it fails before any generation work. *)
Theorem C8_AddTask_construction (bitLen : nat) :
  ((1 ≤ bitLen)%nat → AddTask.new bitLen = Ok (AddTask.Build bitLen))
  ∧ ((bitLen ≤ 0)%nat → AddTask.new bitLen = Err InvalidArgument).
Proof.
  unfold AddTask.new. split; intros H.
  - by rewrite decide_False by lia.
  - by rewrite decide_True by lia.
Qed.

Lemma C8_AddTask_construction_witness :
  (1 ≤ 4)%nat ∧ AddTask.new 4 = Ok (AddTask.Build 4)
  ∧ (0 ≤ 0)%nat ∧ AddTask.new 0 = Err InvalidArgument.
Proof.
  assert (H4 : (1 ≤ 4)%nat) by lia. assert (H0 : (0 ≤ 0)%nat) by lia.
  split; [exact H4 |].
  split; [exact (proj1 (C8_AddTask_construction 4) H4) |].
  split; [exact H0 |].
  exact (proj2 (C8_AddTask_construction 0) H0).
Defined.

(** ** Errors of the generation loop *)

Lemma build_item_cases (s : AddTask.loop_state) :
  (∃ r, AddTask.build_item s = Ok r) ∨ AddTask.build_item s = Err DomainError.
Proof.
  destruct (build_item_spec s)
    as (bitsA & bitsB & g' & _ & _ & _ & _ & Hneg & Hpos).
  destruct (decide (wrap32 (int_of_bits bitsA + int_of_bits bitsB) < 0))
    as [Hlt | Hge].
  - right. by apply Hneg.
  - left. destruct Hpos as (vl & -> & _); [lia | by eexists].
Qed.

Lemma generate_item_cases (task : AddTask.t) (fixedLength : bool)
    (s : AddTask.loop_state) :
  (fixedLength = false → (2 ≤ AddTask.bitLen task)%nat) →
  (∃ r, AddTask.generate_item task fixedLength s = Ok r)
  ∨ AddTask.generate_item task fixedLength s = Err DomainError.
Proof.
  intros Hvar. unfold AddTask.generate_item.
  assert (∃ s1, AddTask.draw_sizes task fixedLength s = Ok s1) as (s1 & ->).
  { destruct fixedLength; [by eexists |].
    destruct (draw_sizes_variable task s (Hvar eq_refl))
      as (a & b & g' & -> & _). by eexists. }
  rewrite ok_bind. apply build_item_cases.
Qed.

Lemma generate_loop_cases (task : AddTask.t) (fixedLength : bool) (n : nat)
    (s : AddTask.loop_state) :
  (fixedLength = false → (2 ≤ AddTask.bitLen task)%nat) →
  (∃ r, AddTask.generate_loop task fixedLength n s = Ok r)
  ∨ AddTask.generate_loop task fixedLength n s = Err DomainError.
Proof.
  intros Hvar. revert s. induction n as [|n IH]; intros s.
  - left. by eexists.
  - cbn [AddTask.generate_loop].
    destruct (generate_item_cases task fixedLength s Hvar)
      as [([[vi vl] s1] & ->) | ->]; [| by right].
    rewrite ok_bind.
    destruct (IH s1) as [([[vis vls] s2] & ->) | ->]; [| by right].
    left. by eexists.
Qed.

Lemma generate_loop_empty_range (task : AddTask.t) (n : nat)
    (s : AddTask.loop_state) :
  (AddTask.bitLen task < 2)%nat → (1 ≤ n)%nat →
  AddTask.generate_loop task false n s = Err EmptyRange.
Proof.
  intros Hb Hn. destruct n as [|n]; [lia |].
  cbn [AddTask.generate_loop]. unfold AddTask.generate_item.
  by rewrite draw_sizes_empty.
Qed.

Lemma Generate_Err (task : AddTask.t) (batchSize : nat) (fixedLength : bool)
    (g : Rng) (e : error) :
  AddTask.GenerateSequences task batchSize fixedLength g = Err e →
  AddTask.Generate task batchSize fixedLength g = Err e.
Proof. intros E. unfold AddTask.Generate. by rewrite E. Qed.

Lemma Generate_total (task : AddTask.t) (batchSize : nat)
    (fixedLength : bool) (g : Rng) :
  (fixedLength = false → (2 ≤ AddTask.bitLen task)%nat) →
  (AddTask.bitLen task ≤ 30)%nat →
  ∃ r, AddTask.Generate task batchSize fixedLength g = Ok r.
Proof.
  intros Hvar H30.
  destruct (generate_loop_total task fixedLength batchSize
              (AddTask.LoopState g (AddTask.bitLen task) (AddTask.bitLen task)))
    as ([[vis vls] s] & E); [done | done | done |].
  eexists. by apply Generate_of_sequences.
Qed.


(** ** The matrix form of [AddTask::Generate] *)

Lemma length_concat_columns (r : nat) (cols : list mat) :
  Forall (column_of r) cols →
  length (concat (mem <$> cols)) = (length cols * r)%nat.
Proof.
  induction 1 as [|x cols (_ & _ & Hx) _ IH]; [done |].
  cbn. rewrite length_app, IH, Hx. lia.
Qed.

Lemma col_concat_columns (r n : nat) (cols : list mat) (i : nat) (x : mat) :
  Forall (column_of r) cols → cols !! i = Some x →
  col (Mat r n (concat (mem <$> cols))) i = mem x.
Proof.
  unfold col. cbn [n_rows mem]. intros Hcols. revert i.
  induction Hcols as [|y cols (_ & _ & Hy) _ IH]; intros i Hi; [done |].
  destruct i as [|i]; cbn in Hi; rewrite fmap_cons; cbn [concat].
  - injection Hi as ->. rewrite Nat.mul_0_l, drop_0.
    by rewrite take_app_length' by done.
  - replace (S i * r)%nat with (length (mem y) + i * r)%nat by lia.
    rewrite drop_app_add. by apply IH.
Qed.

Lemma assign_col_step (r n i : nat) (cols : list mat) (x : mat) :
  (i < n)%nat → length cols = i →
  Forall (column_of r) cols → column_of r x →
  assign_col (Mat r n (concat (mem <$> cols) ++ replicate (r * (n - i)) 0)) i x
  = Ok (Mat r n (concat (mem <$> (cols ++ [x]))
                 ++ replicate (r * (n - S i)) 0)).
Proof.
  intros Hi Hlen Hcols (Hr & Hc & Hm). unfold assign_col. cbn [n_rows n_cols mem].
  rewrite decide_False by lia. rewrite decide_False by lia.
  assert (HlC : length (concat (mem <$> cols)) = (i * r)%nat).
  { rewrite (length_concat_columns r) by done. by rewrite Hlen. }
  do 2 f_equal.
  rewrite take_app_length' by done.
  rewrite resize_all_alt by done.
  rewrite <- HlC, drop_app_add, drop_replicate.
  rewrite fmap_app, concat_app. cbn. rewrite app_nil_r, <- app_assoc.
  do 3 f_equal. nia.
Qed.

(** The loop of lines 121-125. *)
Lemma pack_loop_spec (r n : nat) (fI fL : list mat) :
  length fI = n → length fL = n →
  Forall (column_of r) fI → Forall (column_of r) fL →
  for_loop 0 n
    (fun i '(input, labels) =>
       fi ← field_get fI i;
       input ← assign_col input i fi;
       fl ← field_get fL i;
       labels ← assign_col labels i fl;
       Ok (input, labels))
    (set_size r n, set_size r n)
  = Ok (Mat r n (concat (mem <$> fI)), Mat r n (concat (mem <$> fL))).
Proof.
  intros HlI HlL HcI HcL.
  destruct (for_loop_total
    (fun i '(input, labels) =>
       fi ← field_get fI i;
       input ← assign_col input i fi;
       fl ← field_get fL i;
       labels ← assign_col labels i fl;
       Ok (input, labels))
    (fun i '(input, labels) =>
       input = Mat r n (concat (mem <$> take i fI) ++ replicate (r * (n - i)) 0)
       ∧ labels = Mat r n (concat (mem <$> take i fL)
                           ++ replicate (r * (n - i)) 0))
    0 n (set_size r n, set_size r n)) as ([inM labM] & -> & -> & ->).
  - unfold set_size, zeros. rewrite Nat.sub_0_r, (Nat.mul_comm r n). done.
  - intros i [inM labM] Hi [-> ->].
    destruct (lookup_lt_is_Some_2 fI i) as [fi Hfi]; [lia |].
    destruct (lookup_lt_is_Some_2 fL i) as [fl Hfl]; [lia |].
    rewrite (field_get_lookup _ _ _ Hfi), ok_bind.
    rewrite (assign_col_step r n i) by
      (first [lia | rewrite length_take; lia | by apply Forall_take
             | exact (Forall_lookup_1 _ _ _ _ HcI Hfi)]).
    rewrite ok_bind, (field_get_lookup _ _ _ Hfl), ok_bind.
    rewrite (assign_col_step r n i) by
      (first [lia | rewrite length_take; lia | by apply Forall_take
             | exact (Forall_lookup_1 _ _ _ _ HcL Hfl)]).
    rewrite ok_bind. eexists. split; [done |].
    by rewrite (take_S_r _ _ _ Hfi), (take_S_r _ _ _ Hfl).
  - cbn [Nat.add]. rewrite Nat.sub_diag, Nat.mul_0_r. cbn [replicate].
    rewrite !app_nil_r, !take_ge by lia. done.
Qed.

Lemma onehot_column_of (v : list Z) : column_of (3 * length v) (onehot_column v).
Proof. unfold column_of. cbn. by rewrite length_onehot. Qed.

Lemma label_column_of (vi vl : list Z) :
  column_of (3 * length vi) (label_column vi vl).
Proof.
  unfold column_of, label_column, reshape, n_elem. cbn.
  rewrite length_resize. lia.
Qed.

Lemma fixed_items_columns (task : AddTask.t) (vis vls : list (list Z)) :
  Forall2 (add_item task true) vis vls →
  Forall (fun vi => length vi = (2 * AddTask.bitLen task + 1)%nat) vis
  ∧ Forall (column_of (3 * (2 * AddTask.bitLen task + 1)))
           (onehot_column <$> vis)
  ∧ Forall (column_of (3 * (2 * AddTask.bitLen task + 1)))
           (zip_with label_column vis vls).
Proof.
  induction 1 as [|vi vl vis vls Hitem _ (IH1 & IH2 & IH3)]; [done |].
  assert (Hlen : length vi = (2 * AddTask.bitLen task + 1)%nat).
  { destruct Hitem as (bitsA & bitsB & -> & _ & _ & [HA HB] & _).
    rewrite length_app. cbn. lia. }
  split; [by constructor |].
  rewrite fmap_cons. cbn [zip_with]. rewrite <- Hlen in *.
  split; constructor; try done.
  - apply onehot_column_of.
  - apply label_column_of.
Qed.

Lemma Generate_mat_of_sequences (task : AddTask.t) (batchSize : nat)
    (g : Rng) (vis vls : list (list Z)) (s : AddTask.loop_state) :
  (1 ≤ batchSize)%nat →
  AddTask.GenerateSequences task batchSize true g = Ok (vis, vls, s) →
  AddTask.Generate_mat task batchSize g
  = Ok (Mat (3 * (2 * AddTask.bitLen task + 1)) batchSize
            (concat (mem <$> (onehot_column <$> vis))),
        Mat (3 * (2 * AddTask.bitLen task + 1)) batchSize
            (concat (mem <$> zip_with label_column vis vls)),
        AddTask.rng s).
Proof.
  intros Hn Hseq. unfold AddTask.Generate_mat.
  rewrite (Generate_of_sequences _ _ _ _ _ _ _ Hseq), ok_bind.
  apply generate_loop_Ok in Hseq as [Hlen Hall]; [| done].
  apply Forall2_length in Hall as Hlen2.
  destruct (fixed_items_columns _ _ _ Hall) as (Hl & HcI & HcL).
  destruct vis as [|vi vis]; [cbn in Hlen; lia |].
  destruct vls as [|vl vls]; [done |].
  pose proof (Forall_inv Hl) as Hvi. cbn beta in Hvi.
  cbn [fmap list_fmap zip_with field_get lookup list_lookup].
  rewrite !ok_bind. cbn [onehot_column n_rows].
  replace (n_rows (label_column vi vl)) with (3 * length vi)%nat
    by (unfold label_column, n_elem; cbn; lia).
  rewrite Hvi.
  change (onehot_column vi :: (onehot_column <$> vis))
    with (onehot_column <$> (vi :: vis)) in *.
  change (label_column vi vl :: zip_with label_column vis vls)
    with (zip_with label_column (vi :: vis) (vl :: vls)) in *.
  rewrite pack_loop_spec; [done | | | done | done].
  - by rewrite length_fmap.
  - rewrite length_zip_with. lia.
Qed.

Lemma Generate_mat_empty_batch (task : AddTask.t) (g : Rng) :
  AddTask.Generate_mat task 0 g = Err OutOfBounds.
Proof. done. Qed.

Lemma Generate_mat_total (task : AddTask.t) (batchSize : nat) (g : Rng) :
  (1 ≤ batchSize)%nat → (AddTask.bitLen task ≤ 30)%nat →
  ∃ r, AddTask.Generate_mat task batchSize g = Ok r.
Proof.
  intros Hn H30.
  destruct (generate_loop_total task true batchSize
              (AddTask.LoopState g (AddTask.bitLen task) (AddTask.bitLen task)))
    as ([[vis vls] s] & E); [done | done | done |].
  eexists. by apply Generate_mat_of_sequences.
Qed.

(** C4: the matrix form of [AddTask::Generate] runs the field form with
    [fixedLength = true]; every input sequence then has length
    [2 * bitLen + 1] before encoding, and the two matrices returned have
    [batchSize] columns and [3 * (2 * bitLen + 1)] rows, the width of every
    encoded item; column [i] of each is item [i] of the field form. *)
Theorem C4_fixed_length_matrices (task : AddTask.t) (batchSize : nat)
    (g g' : Rng) (input labels : mat) :
  AddTask.Generate_mat task batchSize g = Ok (input, labels, g') →
  ∃ (vis vls : list (list Z)) (s : AddTask.loop_state)
    (fieldInput fieldLabels : list mat),
    AddTask.GenerateSequences task batchSize true g = Ok (vis, vls, s)
    ∧ AddTask.Generate task batchSize true g
      = Ok (fieldInput, fieldLabels, g')
    ∧ length vis = batchSize
    ∧ (∀ (i : nat) (vi : list Z), vis !! i = Some vi →
         length vi = (2 * AddTask.bitLen task + 1)%nat)
    ∧ n_cols input = batchSize ∧ n_cols labels = batchSize
    ∧ n_rows input = (3 * (2 * AddTask.bitLen task + 1))%nat
    ∧ n_rows labels = (3 * (2 * AddTask.bitLen task + 1))%nat
    ∧ length (mem input) = (n_rows input * n_cols input)%nat
    ∧ length (mem labels) = (n_rows labels * n_cols labels)%nat
    ∧ (∀ (i : nat) (fi fl : mat),
         fieldInput !! i = Some fi → fieldLabels !! i = Some fl →
         n_cols fi = 1%nat ∧ n_rows fi = n_rows input
         ∧ n_cols fl = 1%nat ∧ n_rows fl = n_rows labels
         ∧ col input i = mem fi ∧ col labels i = mem fl).
Proof.
  intros H.
  destruct (AddTask.GenerateSequences task batchSize true g)
    as [[[vis vls] s] | e] eqn:Eseq.
  2:{ unfold AddTask.Generate_mat in H.
      rewrite (Generate_Err _ _ _ _ _ Eseq) in H. discriminate. }
  destruct batchSize as [|n]; [by rewrite Generate_mat_empty_batch in H |].
  rewrite (Generate_mat_of_sequences task (S n) g vis vls s ltac:(lia) Eseq)
    in H.
  injection H as <- <- <-.
  exists vis, vls, s, (onehot_column <$> vis), (zip_with label_column vis vls).
  split; [done |]. split; [by apply Generate_of_sequences |].
  apply generate_loop_Ok in Eseq as [Hlen Hall]; [| done].
  apply Forall2_length in Hall as Hlen2.
  destruct (fixed_items_columns _ _ _ Hall) as (Hl & HcI & HcL).
  cbn [n_rows n_cols mem].
  split; [done |]. split; [intros i vi; by apply (Forall_lookup_1 _ _ _ _ Hl) |].
  split; [done |]. split; [done |]. split; [done |]. split; [done |].
  split. { rewrite (length_concat_columns _ _ HcI), length_fmap. lia. }
  split. { rewrite (length_concat_columns _ _ HcL), length_zip_with. lia. }
  intros i fi fl Hfi Hfl.
  destruct (Forall_lookup_1 _ _ _ _ HcI Hfi) as (? & ? & _).
  destruct (Forall_lookup_1 _ _ _ _ HcL Hfl) as (? & ? & _).
  split; [done |]. split; [done |]. split; [done |]. split; [done |].
  split; by apply col_concat_columns.
Qed.

Lemma C4_fixed_length_matrices_witness :
  ∃ (input labels : mat) (g' : Rng),
    AddTask.Generate_mat (AddTask.Build 1) 2 tape_11_plus_2
    = Ok (input, labels, g')
    ∧ n_cols input = 2%nat ∧ n_cols labels = 2%nat
    ∧ n_rows input = 9%nat ∧ n_rows labels = 9%nat
    ∧ mem input = [0; 1; 0; 0; 0; 1; 0; 1; 0; 0; 1; 0; 0; 0; 1; 1; 0; 0]
    ∧ mem labels = [0; 1; 0; 1; 0; 0; 0; 0; 0; 0; 1; 0; 0; 0; 0; 0; 0; 0].
Proof.
  destruct (AddTask.Generate_mat (AddTask.Build 1) 2 tape_11_plus_2)
    as [[[input labels] g'] | e] eqn:E; [| by vm_compute in E].
  destruct (C4_fixed_length_matrices _ _ _ _ _ _ E)
    as (vis & vls & s & fI & fL & _ & _ & _ & _ & HcI & HcL & HrI & HrL & _).
  exists input, labels, g'. split; [done |].
  split; [exact HcI |]. split; [exact HcL |].
  split; [exact HrI |]. split; [exact HrL |].
  vm_compute in E. injection E as <- <- <-. split; reflexivity.
Defined.

(** ** CopyTask *)

Lemma length_repmat (v : list Z) (n : nat) :
  length (CopyTask.repmat v n) = (n * length v)%nat.
Proof.
  unfold CopyTask.repmat. induction n as [|n IH]; [done |].
  cbn [replicate concat]. rewrite length_app, IH. lia.
Qed.

Lemma pairs_length (f0 f1 : nat → Z) (lo n : nat) :
  length (flat_map (fun i => [f0 i; f1 i]) (seq lo n)) = (2 * n)%nat.
Proof.
  revert lo. induction n as [|n IH]; intros lo; [done |].
  cbn [seq flat_map]. rewrite length_app, IH. cbn. lia.
Qed.

Lemma pairs_lookup (f0 f1 : nat → Z) (lo n t : nat) :
  (t < n)%nat →
  flat_map (fun i => [f0 i; f1 i]) (seq lo n) !! (2 * t)%nat
  = Some (f0 (lo + t)%nat)
  ∧ flat_map (fun i => [f0 i; f1 i]) (seq lo n) !! (2 * t + 1)%nat
    = Some (f1 (lo + t)%nat).
Proof.
  revert lo t. induction n as [|n IH]; intros lo t Ht; [lia |].
  cbn [seq flat_map]. destruct t as [|t].
  - rewrite Nat.add_0_r. by split.
  - replace (2 * S t)%nat with (S (S (2 * t))) by lia.
    replace (lo + S t)%nat with (S lo + t)%nat by lia.
    cbn. apply IH. lia.
Qed.

(** The memory of the two-channel matrix of lines 46-50, read at the
    index [i0] of time [t] in column 0 and [i1] in column 1. *)
Lemma two_channel_lookup (b : list Z) (ns t i0 i1 : nat) :
  let M := b ++ replicate (length b + ns) 0 ++ replicate ns 1 in
  i0 = t → i1 = (t + (length b + ns))%nat →
  ((t < length b)%nat → Some (M !!! i0) = b !! t ∧ M !!! i1 = 0)
  ∧ ((length b ≤ t < length b + ns)%nat → M !!! i0 = 0 ∧ M !!! i1 = 1).
Proof.
  intros M -> ->. subst M. split; intros Ht.
  - destruct (lookup_lt_is_Some_2 b t Ht) as [x Hx].
    split.
    + rewrite Hx. f_equal. apply list_lookup_total_correct.
      by rewrite lookup_app_l.
    + apply list_lookup_total_correct.
      rewrite lookup_app_r by lia.
      rewrite lookup_app_l by (rewrite length_replicate; lia).
      apply lookup_replicate_2. lia.
  - split; apply list_lookup_total_correct.
    + rewrite lookup_app_r by lia.
      rewrite lookup_app_l by (rewrite length_replicate; lia).
      apply lookup_replicate_2. lia.
    + rewrite lookup_app_r by lia.
      rewrite lookup_app_r by (rewrite length_replicate; lia).
      apply lookup_replicate_2. rewrite length_replicate. lia.
Qed.

Lemma assign_col_rows_Ok (m : mat) (c a b : nat) (v : list Z) :
  (c < n_cols m)%nat → (a ≤ b < n_rows m)%nat → length v = (b - a + 1)%nat →
  assign_col_rows m c a b v
  = Ok (Mat (n_rows m) (n_cols m)
          (take (c * n_rows m + a) (mem m) ++ v
             ++ drop (c * n_rows m + a + length v) (mem m))).
Proof.
  intros Hc Hab Hv. unfold assign_col_rows.
  rewrite decide_False by lia. rewrite decide_False by lia.
  by rewrite decide_False by lia.
Qed.

Lemma assign_col_rows_range (m : mat) (c a b : nat) (v : list Z) :
  (c < n_cols m)%nat → (b < a ∨ n_rows m ≤ b)%nat →
  assign_col_rows m c a b v = Err OutOfBounds.
Proof.
  intros Hc Hab. unfold assign_col_rows.
  rewrite decide_False by lia. by rewrite decide_True by lia.
Qed.

(** What the body of the loop of [CopyTask::Generate] does. *)
Lemma copy_generate_item_spec (task : CopyTask.t) (g : Rng) :
  ((CopyTask.maxLength task < 2)%nat →
     CopyTask.generate_item task g = Err EmptyRange)
  ∧ ((2 ≤ CopyTask.maxLength task)%nat → CopyTask.nRepeats task = 0%nat →
     CopyTask.generate_item task g = Err OutOfBounds)
  ∧ ((2 ≤ CopyTask.maxLength task)%nat → (1 ≤ CopyTask.nRepeats task)%nat →
     ∃ inp lab g', CopyTask.generate_item task g = Ok (inp, lab, g')
                   ∧ copy_item task inp lab).
Proof.
  unfold CopyTask.generate_item. split; [| split].
  - intros Hm. by rewrite RandInt_empty by lia.
  - intros Hm Hn.
    destruct (RandInt_total 2 (CopyTask.maxLength task + 1) g)
      as (size & g1 & E); [lia |].
    rewrite E, ok_bind. apply RandInt_Ok in E.
    destruct (randi size 0 1 g1) as [b g2] eqn:Er.
    destruct (randi_bits _ _ _ _ Er) as [Hlen Hbits].
    rewrite Hn. unfold CopyTask.repmat. cbn [replicate concat length].
    rewrite Nat.add_0_r, Hlen.
    rewrite (assign_col_rows_Ok (zeros size 2) 0 0) by (cbn; lia).
    rewrite ok_bind.
    by rewrite (assign_col_rows_range (Mat size 2 _) 1) by (cbn; lia).
  - intros Hm Hn.
    destruct (RandInt_total 2 (CopyTask.maxLength task + 1) g)
      as (size & g1 & E); [lia |].
    rewrite E, ok_bind. apply RandInt_Ok in E.
    destruct (randi size 0 1 g1) as [b g2] eqn:Er.
    destruct (randi_bits _ _ _ _ Er) as [Hlen Hbits].
    rewrite length_repmat.
    set (n := CopyTask.nRepeats task) in *.
    set (ns := (n * length b)%nat).
    assert (Hns : (1 ≤ ns)%nat) by (subst ns; nia).
    set (T := (length b + ns)%nat).
    rewrite (assign_col_rows_Ok (zeros T 2) 0 0) by (cbn; lia).
    rewrite ok_bind. cbn [zeros n_rows n_cols mem].
    rewrite Nat.mul_0_l, Nat.add_0_l, take_0, app_nil_l, drop_replicate.
    unfold ones.
    rewrite (assign_col_rows_Ok (Mat T 2 _) 1)
      by (cbn; rewrite ?length_replicate; lia).
    rewrite ok_bind. cbn [n_rows n_cols mem]. rewrite length_replicate.
    rewrite (assign_col_rows_Ok (zeros T 1) 0)
      by (cbn; rewrite ?length_repmat; fold n ns; lia).
    rewrite ok_bind, length_repmat. fold n ns. cbn [zeros n_rows n_cols mem].
    eexists _, _, _. split; [reflexivity |].
    (* the memory of the two-channel matrix and of the label *)
    set (M := take _ _ ++ replicate _ 1 ++ drop _ _).
    assert (HM : M = b ++ replicate (length b + ns) 0 ++ replicate ns 1).
    { subst M. rewrite take_app_ge by lia.
      rewrite take_replicate.
      rewrite drop_ge by (rewrite length_app, length_replicate; lia).
      rewrite app_nil_r, <- app_assoc. f_equal. f_equal; f_equal; lia. }
    rewrite HM. clear M HM.
    set (L := take _ _ ++ CopyTask.repmat b n ++ drop _ _).
    assert (HL : L = replicate size 0 ++ concat (replicate n b)).
    { subst L. rewrite take_replicate, drop_replicate.
      replace (T * 1 - (0 * T + length b + ns))%nat with 0%nat by lia.
      cbn [replicate]. rewrite app_nil_r. unfold CopyTask.repmat.
      do 2 f_equal. lia. }
    rewrite HL. clear L HL.
    exists size, b. cbn zeta.
    assert (HT : (size + size * CopyTask.nRepeats task)%nat = T)
      by (subst T ns n; lia).
    rewrite HT.
    split; [lia |]. split; [done |]. split; [done |].
    unfold reshape, n_elem, transpose. cbn [n_rows n_cols mem].
    split; [done |]. split; [done |]. split; [done |].
    split; [done |]. split; [lia |].
    change ((fun j => ?M !!! (?i + j * T)%nat) <$> seq 0 2)
      with [M !!! (i + 0 * T)%nat; M !!! (i + 1 * T)%nat].
    rewrite resize_all_alt by (rewrite pairs_length; lia).
    split; [rewrite pairs_length; lia |].
    unfold channel. split.
    + intros t Ht. rewrite Nat.add_0_r.
      destruct (pairs_lookup
        (fun i => (b ++ replicate (length b + ns) 0 ++ replicate ns 1)
                    !!! (i + 0 * T)%nat)
        (fun i => (b ++ replicate (length b + ns) 0 ++ replicate ns 1)
                    !!! (i + 1 * T)%nat) 0 T t ltac:(lia)) as [-> ->].
      destruct (two_channel_lookup b ns t (0 + t + 0 * T) (0 + t + 1 * T))
        as [Hlow _]; [lia | lia |].
      destruct (Hlow ltac:(lia)) as (-> & ->). done.
    + intros t Ht. rewrite Nat.add_0_r.
      destruct (pairs_lookup
        (fun i => (b ++ replicate (length b + ns) 0 ++ replicate ns 1)
                    !!! (i + 0 * T)%nat)
        (fun i => (b ++ replicate (length b + ns) 0 ++ replicate ns 1)
                    !!! (i + 1 * T)%nat) 0 T t ltac:(lia)) as [-> ->].
      destruct (two_channel_lookup b ns t (0 + t + 0 * T) (0 + t + 1 * T))
        as [_ Hhigh]; [lia | lia |].
      destruct (Hhigh ltac:(lia)) as (-> & ->). done.
Qed.

Lemma copy_generate_item_Ok (task : CopyTask.t) (g g' : Rng) (inp lab : mat) :
  CopyTask.generate_item task g = Ok (inp, lab, g') → copy_item task inp lab.
Proof.
  intros H. destruct (copy_generate_item_spec task g) as (Hsmall & Hzero & Hok).
  destruct (decide (CopyTask.maxLength task < 2)%nat) as [Hm | Hm].
  { rewrite (Hsmall Hm) in H. discriminate. }
  destruct (decide (CopyTask.nRepeats task = 0%nat)) as [Hn | Hn].
  { rewrite (Hzero ltac:(lia) Hn) in H. discriminate. }
  destruct (Hok ltac:(lia) ltac:(lia)) as (inp' & lab' & g'' & E & Hitem).
  rewrite E in H. by injection H as <- <- <-.
Qed.

Lemma copy_Generate_Ok (task : CopyTask.t) (batchSize : nat) (g g' : Rng)
    (input labels : list mat) :
  CopyTask.Generate task batchSize g = Ok (input, labels, g') →
  length input = batchSize ∧ Forall2 (copy_item task) input labels.
Proof.
  revert g input labels. induction batchSize as [|n IH]; intros g input labels H.
  - injection H as <- <- <-. by split.
  - cbn [CopyTask.Generate] in H. ok_inv H.
    destruct x as [[inp lab] g1]. ok_inv H. destruct x as [[inps labs] g2].
    injection H as <- <- <-.
    apply copy_generate_item_Ok in E. destruct (IH _ _ _ E0) as [Hlen Hall].
    split; [cbn; lia | by constructor].
Qed.

Lemma copy_Generate_total (task : CopyTask.t) (batchSize : nat) (g : Rng) :
  (2 ≤ CopyTask.maxLength task)%nat → (1 ≤ CopyTask.nRepeats task)%nat →
  ∃ r, CopyTask.Generate task batchSize g = Ok r.
Proof.
  intros Hm Hn. revert g. induction batchSize as [|n IH]; intros g.
  - by eexists.
  - cbn [CopyTask.Generate].
    destruct (copy_generate_item_spec task g) as (_ & _ & Hok).
    destruct (Hok Hm Hn) as (inp & lab & g1 & -> & _). rewrite ok_bind.
    destruct (IH g1) as ([[inps labs] g2] & ->). by eexists.
Qed.

(** C3: for every item generated by [CopyTask::Generate] there are a
    length [size] in [2, maxLength] and a base sequence [b] of [size] bits
    such that: the label is a single column of length
    [size + size * nRepeats], [size] zeros followed by [nRepeats]
    consecutive copies of [b]; and in the input column the delimiter
    (second) channel is zero at the first [size] time positions and one at
    every later position, while the value (first) channel holds [b] at the
    first [size] positions and zero at every later position. *)
Theorem C3_copy_item_layout (task : CopyTask.t) (batchSize : nat)
    (g g' : Rng) (input labels : list mat) :
  CopyTask.Generate task batchSize g = Ok (input, labels, g') →
  length input = batchSize ∧ length labels = batchSize
  ∧ ∀ (i : nat) (inp lab : mat),
      input !! i = Some inp → labels !! i = Some lab →
      ∃ (size : nat) (b : list Z),
        let totSize := (size + size * CopyTask.nRepeats task)%nat in
        (2 ≤ size ≤ CopyTask.maxLength task)%nat
        ∧ length b = size ∧ Forall is_bit b
        ∧ n_cols lab = 1%nat ∧ n_rows lab = totSize
        ∧ mem lab
          = replicate size 0 ++ concat (replicate (CopyTask.nRepeats task) b)
        ∧ n_cols inp = 1%nat ∧ n_rows inp = (2 * totSize)%nat
        ∧ length (mem inp) = (2 * totSize)%nat
        ∧ (∀ t : nat, (t < size)%nat →
             channel 0 (mem inp) t = b !! t ∧ channel 1 (mem inp) t = Some 0)
        ∧ (∀ t : nat, (size ≤ t < totSize)%nat →
             channel 0 (mem inp) t = Some 0 ∧ channel 1 (mem inp) t = Some 1).
Proof.
  intros H. apply copy_Generate_Ok in H as [Hlen Hall].
  split; [done |]. split; [by rewrite <- (Forall2_length Hall) |].
  intros i inp lab Hinp Hlab.
  exact (Forall2_lookup_lr _ _ _ _ _ _ Hall Hinp Hlab).
Qed.

Lemma C3_copy_item_layout_witness :
  ∃ (inp lab : mat) (g' : Rng),
    CopyTask.Generate (CopyTask.Build 5 2) 1 tape_copy = Ok ([inp], [lab], g')
    ∧ mem lab = [0; 0; 0; 1; 0; 1; 1; 0; 1]
    ∧ mem inp = [1; 0; 0; 0; 1; 0; 0; 1; 0; 1; 0; 1; 0; 1; 0; 1; 0; 1]
    ∧ ∃ (size : nat) (b : list Z),
        (2 ≤ size ≤ 5)%nat ∧ length b = size
        ∧ mem lab = replicate size 0 ++ concat (replicate 2 b).
Proof.
  destruct (CopyTask.Generate (CopyTask.Build 5 2) 1 tape_copy)
    as [[[input labels] g'] | e] eqn:E; [| by vm_compute in E].
  pose proof (C3_copy_item_layout _ _ _ _ _ _ E) as (_ & _ & Hlay).
  vm_compute in E. injection E as <- <- <-.
  eexists _, _, _. split; [reflexivity |].
  split; [reflexivity |]. split; [reflexivity |].
  destruct (Hlay 0%nat _ _ eq_refl eq_refl)
    as (size & b & Hsz & Hb & _ & _ & _ & Hmem & _).
  exists size, b. split; [exact Hsz |]. split; [exact Hb |]. exact Hmem.
Defined.

(** C10: [CopyTask] construction accepts every [nRepeats], zero included.
    With [nRepeats = 0] the repeated label is empty, [totSize] is [size],
    and the row range [rows(size, totSize - 1)] of line 49 is refused as
    out of bounds, so [Generate] has no result; with [nRepeats >= 1] every
    row range of [Generate] is in bounds and the call returns a batch. *)
Theorem C10_copy_needs_a_repeat (maxLength nRepeats batchSize : nat)
    (g : Rng) :
  (2 ≤ maxLength)%nat → (1 ≤ batchSize)%nat →
  CopyTask.new maxLength nRepeats = Ok (CopyTask.Build maxLength nRepeats)
  ∧ (nRepeats = 0%nat →
     CopyTask.repmat [0; 1] nRepeats = []
     ∧ (∀ (m : mat) (size : nat) (v : list Z),
          (1 < n_cols m)%nat → (2 ≤ size)%nat →
          assign_col_rows m 1 size (size + 0 - 1) v = Err OutOfBounds)
     ∧ CopyTask.Generate (CopyTask.Build maxLength nRepeats) batchSize g
       = Err OutOfBounds)
  ∧ ((1 ≤ nRepeats)%nat →
     ∃ (input labels : list mat) (g' : Rng),
       CopyTask.Generate (CopyTask.Build maxLength nRepeats) batchSize g
       = Ok (input, labels, g')
       ∧ length input = batchSize).
Proof.
  intros Hm Hb. split; [| split].
  - unfold CopyTask.new. by rewrite decide_True by lia.
  - intros ->. split; [done |]. split.
    + intros m size v Hc Hs. apply assign_col_rows_range; lia.
    + destruct batchSize as [|n]; [lia |]. cbn [CopyTask.Generate].
      destruct (copy_generate_item_spec (CopyTask.Build maxLength 0) g)
        as (_ & Hzero & _).
      by rewrite Hzero.
  - intros Hn.
    destruct (copy_Generate_total (CopyTask.Build maxLength nRepeats)
                batchSize g Hm Hn) as ([[input labels] g'] & E).
    exists input, labels, g'. split; [done |].
    by apply copy_Generate_Ok in E as [? _].
Qed.

Lemma C10_copy_needs_a_repeat_witness :
  (2 ≤ 5)%nat ∧ (1 ≤ 1)%nat
  ∧ CopyTask.new 5 0 = Ok (CopyTask.Build 5 0)
  ∧ CopyTask.Generate (CopyTask.Build 5 0) 1 tape_copy = Err OutOfBounds
  ∧ ∃ (input labels : list mat) (g' : Rng),
      CopyTask.Generate (CopyTask.Build 5 2) 1 tape_copy
      = Ok (input, labels, g')
      ∧ length input = 1%nat.
Proof.
  assert (H5 : (2 ≤ 5)%nat) by lia. assert (H1 : (1 ≤ 1)%nat) by lia.
  destruct (C10_copy_needs_a_repeat 5 0 1 tape_copy H5 H1)
    as (Hnew & Hzero & _).
  destruct (C10_copy_needs_a_repeat 5 2 1 tape_copy H5 H1)
    as (_ & _ & Hrep).
  split; [exact H5 |]. split; [exact H1 |]. split; [exact Hnew |].
  split; [exact (proj2 (proj2 (Hzero eq_refl))) |].
  apply Hrep. lia.
Defined.

(** ** Further properties of [Binarize] *)

Lemma decode_onehot_columns (input : list (list Z)) :
  Forall (Forall is_symbol) input →
  decode_column <$> (onehot_column <$> input) = input.
Proof.
  induction 1 as [|v input Hv _ IH]; [done |].
  rewrite !fmap_cons, IH. f_equal.
  unfold decode_column. cbn [onehot_column mem].
  by apply onehot_decode_onehot.
Qed.

(** X1: on a batch over the symbols 0, 1 and 2, [AddTask::Binarize]
    returns, and reading every returned column back (one symbol per
    indicator triple) gives the input batch again: the encoding loses
    nothing. *)
Theorem X1_Binarize_round_trip (input : list (list Z)) :
  Forall (Forall is_symbol) input →
  ∃ output : list mat,
    AddTask.Binarize input = Ok output
    ∧ decode_column <$> output = input.
Proof.
  intros Hin. exists (onehot_column <$> input).
  split; [by apply Binarize_spec | by apply decode_onehot_columns].
Qed.

Lemma X1_Binarize_round_trip_witness :
  ∃ output : list mat,
    AddTask.Binarize [[1; 2; 0]; []; [2]] = Ok output
    ∧ decode_column <$> output = [[1; 2; 0]; []; [2]].
Proof.
  apply X1_Binarize_round_trip.
  repeat constructor; unfold is_symbol; lia.
Defined.

Lemma write_indices_snoc (v : list Z) (x : Z) :
  write_indices (v ++ [x]) = write_indices v ++ [write_index (length v) x].
Proof.
  unfold write_indices. rewrite imap_app. cbn. by rewrite Nat.add_0_r.
Qed.

(** X2: [AddTask::Binarize] does not check the range of its symbols.  For
    a sequence [v] of non-negative values whose writes [x + 3 * j] all stay
    inside the [3 * len(v)] elements of the matrix, it returns a single
    column of [3 * len(v)] entries in which entry [k] is 1 exactly when
    some position [j] holds a value [x] with [x + 3 * j = k], and 0
    otherwise: a value of 3 or more sets an entry that belongs to a later
    position. *)
Theorem X2_Binarize_unchecked_symbols (v : list Z) :
  Forall (fun x => 0 ≤ x) v →
  Forall (fun k => (k < 3 * length v)%nat) (write_indices v) →
  ∃ m : mat,
    AddTask.Binarize_item v = Ok m
    ∧ n_cols m = 1%nat ∧ n_rows m = (3 * length v)%nat
    ∧ length (mem m) = (3 * length v)%nat
    ∧ ∀ k : nat, (k < 3 * length v)%nat →
        mem m !! k = Some (if decide (k ∈ write_indices v) then 1 else 0).
Proof.
  intros Hpos Hin. unfold AddTask.Binarize_item.
  destruct (for_loop_total
    (fun j m => x ← vec_at v j; val ← AddTask.to_size_t x; mat_put m val j 1)
    (fun j m => n_rows m = 3%nat ∧ n_cols m = length v
                ∧ length (mem m) = (3 * length v)%nat
                ∧ ∀ k : nat, (k < 3 * length v)%nat →
                    mem m !! k
                    = Some (if decide (k ∈ write_indices (take j v))
                            then 1 else 0))
    0 (length v) (zeros 3 (length v))) as (m & -> & Hr & Hc & Hl & Hm).
  - cbn [zeros n_rows n_cols mem]. rewrite length_replicate.
    split; [done |]. split; [done |]. split; [done |].
    intros k Hk. rewrite take_0. cbn.
    rewrite decide_False by apply not_elem_of_nil.
    by apply lookup_replicate_2.
  - intros j m Hj (Hr & Hc & Hl & Hm).
    destruct (lookup_lt_is_Some_2 v j) as [x Hx]; [lia |].
    rewrite (vec_at_lookup _ _ _ Hx), ok_bind.
    unfold AddTask.to_size_t.
    rewrite decide_True by exact (Forall_lookup_1 _ _ _ _ Hpos Hx).
    rewrite ok_bind. unfold mat_put. rewrite Hr.
    assert (Hidx : (write_index j x < 3 * length v)%nat).
    { apply (Forall_lookup_1 _ _ j _ Hin).
      unfold write_indices. by rewrite list_lookup_imap, Hx. }
    fold (write_index j x).
    rewrite decide_True by lia.
    eexists. split; [done |]. cbn [n_rows n_cols mem].
    split; [done |]. split; [done |].
    split; [by rewrite length_insert |].
    intros k Hk. rewrite (take_S_r _ _ _ Hx), write_indices_snoc.
    rewrite length_take, (Nat.min_l j) by lia.
    destruct (decide (k = write_index j x)) as [-> | Hne].
    + rewrite list_lookup_insert_eq by lia.
      rewrite decide_True; [done |].
      apply elem_of_app. right. by apply list_elem_of_singleton.
    + rewrite list_lookup_insert_ne by done. rewrite (Hm k Hk).
      f_equal. destruct (decide (k ∈ write_indices (take j v))) as [Hi | Hi].
      * rewrite decide_True; [done |]. apply elem_of_app. by left.
      * rewrite decide_False; [done |].
        intros [? | Hs%list_elem_of_singleton]%elem_of_app; done.
  - rewrite ok_bind. eexists. split; [reflexivity |].
    unfold reshape, n_elem. cbn [n_rows n_cols mem].
    rewrite Hr, Hc, Nat.mul_1_r.
    rewrite resize_all_alt by lia.
    split; [done |]. split; [done |]. split; [done |].
    intros k Hk. cbn [Nat.add] in Hm. rewrite (Hm k Hk).
    by rewrite take_ge by lia.
Qed.

Lemma X2_Binarize_unchecked_symbols_witness :
  ∃ m : mat,
    AddTask.Binarize_item [3; 1] = Ok m
    ∧ m = Mat 6 1 [0; 0; 0; 1; 1; 0]
    ∧ ∀ k : nat, (k < 3 * 2)%nat →
        mem m !! k
        = Some (if decide (k ∈ write_indices [3; 1]) then 1 else 0).
Proof.
  assert (Hpos : Forall (fun x => 0 ≤ x) [3; 1]) by (repeat constructor; lia).
  assert (Hin : Forall (fun k => (k < 3 * length [3; 1]%Z)%nat)
                       (write_indices [3; 1])).
  { repeat constructor; cbn; lia. }
  destruct (X2_Binarize_unchecked_symbols _ Hpos Hin)
    as (m & Hm & _ & _ & _ & Hlook).
  exists m. split; [exact Hm |]. split; [| exact Hlook].
  vm_compute in Hm. by injection Hm as <-.
Defined.

(** ** Further properties of [AddTask::Generate] *)

Lemma decode_label_columns (task : AddTask.t) (fixedLength : bool)
    (vis vls : list (list Z)) :
  Forall2 (add_item task fixedLength) vis vls →
  decode_column <$> zip_with label_column vis vls = vls.
Proof.
  induction 1 as [|vi vl vis vls Hitem _ IH]; [done |].
  cbn [zip_with]. rewrite fmap_cons, IH. f_equal.
  unfold decode_column. apply onehot_decode_label.
  - by destruct (add_item_symbols _ _ _ _ Hitem).
  - by destruct (add_item_length _ _ _ _ Hitem).
Qed.

Lemma add_items_symbols (task : AddTask.t) (fixedLength : bool)
    (vis vls : list (list Z)) :
  Forall2 (add_item task fixedLength) vis vls →
  Forall (Forall is_symbol) vis.
Proof.
  induction 1 as [|vi vl vis vls Hitem _ IH]; [done |].
  constructor; [| done]. by destruct (add_item_symbols _ _ _ _ Hitem).
Qed.

(** X3: the batch that the field form of [AddTask::Generate] returns
    holds exactly the sequences built by its loop: reading input item [i]
    back gives [vecInput(i)], and reading label item [i] back gives
    [vecLabels(i)]; the reshape of line 109 only appends zeros, it never
    drops a digit of a label. *)
Theorem X3_Generate_keeps_sequences (task : AddTask.t) (batchSize : nat)
    (fixedLength : bool) (g g' : Rng) (vis vls : list (list Z))
    (s : AddTask.loop_state) (input labels : list mat) :
  AddTask.GenerateSequences task batchSize fixedLength g = Ok (vis, vls, s) →
  AddTask.Generate task batchSize fixedLength g = Ok (input, labels, g') →
  decode_column <$> input = vis ∧ decode_column <$> labels = vls.
Proof.
  intros Hseq H.
  rewrite (Generate_of_sequences _ _ _ _ _ _ _ Hseq) in H.
  injection H as <- <- <-.
  apply generate_loop_Ok in Hseq as [_ Hall]; [| done]. split.
  - apply decode_onehot_columns. by eapply add_items_symbols.
  - by eapply decode_label_columns.
Qed.

Lemma X3_Generate_keeps_sequences_witness :
  ∃ (input labels : list mat) (g' : Rng),
    AddTask.Generate (AddTask.Build 4) 2 true tape_11_plus_2
    = Ok (input, labels, g')
    ∧ decode_column <$> input
      = [[1; 0; 1; 1; 2; 0; 0; 1; 0]; [0; 0; 0; 0; 2; 0; 0; 0; 0]]
    ∧ decode_column <$> labels = [[1; 1; 0; 1]; [0]].
Proof.
  destruct (AddTask.GenerateSequences (AddTask.Build 4) 2 true tape_11_plus_2)
    as [[[vis vls] s] | e] eqn:Eseq; [| by vm_compute in Eseq].
  destruct (AddTask.Generate (AddTask.Build 4) 2 true tape_11_plus_2)
    as [[[input labels] g'] | e] eqn:E; [| by vm_compute in E].
  pose proof (X3_Generate_keeps_sequences _ _ _ _ _ _ _ _ _ _ Eseq E) as Hkeep.
  vm_compute in Eseq. injection Eseq as <- <- <-.
  exists input, labels, g'. split; [reflexivity |]. exact Hkeep.
Defined.

(** X4: the field form of [AddTask::Generate] never raises the
    [std::logic_error] of lines 99-106 and never indexes out of bounds.
    When it fails, it is with the [std::domain_error] of line 86, or, in
    the variable-length mode of a task with [bitLen < 2] and a non-empty
    batch, on the size draw [RandInt(2, bitLen + 1)]. *)
Theorem X4_Generate_failures (task : AddTask.t) (batchSize : nat)
    (fixedLength : bool) (g : Rng) (e : error) :
  AddTask.Generate task batchSize fixedLength g = Err e →
  e = DomainError
  ∨ (e = EmptyRange ∧ fixedLength = false
     ∧ (AddTask.bitLen task < 2)%nat ∧ (1 ≤ batchSize)%nat).
Proof.
  intros H.
  set (s0 := AddTask.LoopState g (AddTask.bitLen task) (AddTask.bitLen task)).
  destruct (decide (fixedLength = false ∧ (AddTask.bitLen task < 2)%nat))
    as [[-> Hb] | Hok].
  - destruct batchSize as [|n].
    + by rewrite (Generate_of_sequences _ 0 false g [] [] s0) in H.
    + rewrite (Generate_Err _ _ _ _ EmptyRange) in H.
      * injection H as <-. right. repeat split; [done | lia].
      * apply generate_loop_empty_range; [done | lia].
  - destruct (generate_loop_cases task fixedLength batchSize s0)
      as [([[vis vls] s] & E) | E].
    + intros ->. destruct (decide (2 ≤ AddTask.bitLen task)%nat); [done |].
      destruct Hok. split; [done | lia].
    + by rewrite (Generate_of_sequences _ _ _ _ _ _ _ E) in H.
    + rewrite (Generate_Err _ _ _ _ _ E) in H. injection H as <-. by left.
Qed.

Lemma X4_Generate_failures_witness :
  AddTask.Generate (AddTask.Build 1) 1 false tape_11_plus_2 = Err EmptyRange
  ∧ (EmptyRange = DomainError
     ∨ (EmptyRange = EmptyRange ∧ false = false
        ∧ (AddTask.bitLen (AddTask.Build 1) < 2)%nat ∧ (1 ≤ 1)%nat)).
Proof.
  assert (E : AddTask.Generate (AddTask.Build 1) 1 false tape_11_plus_2
              = Err EmptyRange) by reflexivity.
  split; [exact E |]. exact (X4_Generate_failures _ _ _ _ _ E).
Defined.

Lemma Generate_small_variable (task : AddTask.t) (batchSize : nat) (g : Rng) :
  (AddTask.bitLen task < 2)%nat →
  AddTask.Generate task batchSize false g ≠ Err DomainError.
Proof.
  intros Hb. destruct batchSize as [|n].
  - by rewrite (Generate_of_sequences _ 0 false g [] []
                  (AddTask.LoopState g (AddTask.bitLen task)
                     (AddTask.bitLen task))).
  - rewrite (Generate_Err _ _ _ _ EmptyRange); [done |].
    apply generate_loop_empty_range; [done | lia].
Qed.

(** X5: the [std::domain_error] of line 86 needs operands of at least 31
    bits: a task with [bitLen <= 30] never raises it, in either mode. *)
Theorem X5_domain_error_needs_31_bits (task : AddTask.t) (batchSize : nat)
    (fixedLength : bool) (g : Rng) :
  AddTask.Generate task batchSize fixedLength g = Err DomainError →
  (31 ≤ AddTask.bitLen task)%nat.
Proof.
  intros H.
  destruct (decide (31 ≤ AddTask.bitLen task)%nat) as [| Hsmall]; [done |].
  destruct (decide (fixedLength = false ∧ (AddTask.bitLen task < 2)%nat))
    as [[-> Hb] | Hok].
  - destruct (Generate_small_variable task batchSize g Hb H).
  - destruct (Generate_total task batchSize fixedLength g) as (r & E).
    + intros ->. destruct (decide (2 ≤ AddTask.bitLen task)%nat); [done |].
      destruct Hok. split; [done | lia].
    + lia.
    + rewrite E in H. discriminate.
Qed.

Lemma X5_domain_error_needs_31_bits_witness :
  AddTask.Generate (AddTask.Build 31) 1 true tape_wide = Err DomainError
  ∧ (31 ≤ AddTask.bitLen (AddTask.Build 31))%nat.
Proof.
  assert (E : AddTask.Generate (AddTask.Build 31) 1 true tape_wide
              = Err DomainError) by (vm_compute; reflexivity).
  split; [exact E |]. exact (X5_domain_error_needs_31_bits _ _ _ _ E).
Defined.

(** An [int] sum of two operands of up to 31 bits that is not negative is
    the sum of the operands: a sum that does not fit wraps to a negative
    [int]. *)
Lemma sum_31 (bitsA bitsB : list Z) :
  Forall is_bit bitsA → Forall is_bit bitsB →
  (length bitsA ≤ 31)%nat → (length bitsB ≤ 31)%nat →
  0 ≤ wrap32 (int_of_bits bitsA + int_of_bits bitsB) →
  wrap32 (int_of_bits bitsA + int_of_bits bitsB)
  = decode_be bitsA + decode_be bitsB.
Proof.
  intros HbA HbB HlA HlB. unfold int_of_bits.
  rewrite !shift_in_fold_decode by done.
  pose proof (decode_be_bound _ HbA) as HA.
  pose proof (decode_be_bound _ HbB) as HB.
  assert (2 ^ Z.of_nat (length bitsA) ≤ 2 ^ 31)
    by (apply Z.pow_le_mono_r; lia).
  assert (2 ^ Z.of_nat (length bitsB) ≤ 2 ^ 31)
    by (apply Z.pow_le_mono_r; lia).
  set (sum := decode_be bitsA + decode_be bitsB) in *.
  destruct (decide (sum < 2 ^ 31)) as [Hsmall | Hbig].
  - intros _. apply wrap32_id. unfold int_range. lia.
  - unfold wrap32.
    replace (sum + 2 ^ 31) with (sum - 2 ^ 31 + 1 * 2 ^ 32) by lia.
    rewrite Z.mod_add by lia. rewrite Z.mod_small by lia. lia.
Qed.

Lemma add_item_sum_31 (task : AddTask.t) (fixedLength : bool)
    (vi vl : list Z) :
  (AddTask.bitLen task ≤ 31)%nat → add_item task fixedLength vi vl →
  Forall is_symbol vi ∧ Forall is_symbol vl ∧ (length vl ≤ length vi)%nat
  ∧ decode_be vl = decode_be (operandA vi) + decode_be (operandB vi).
Proof.
  intros H31 Hitem.
  pose proof (add_item_symbols _ _ _ _ Hitem) as [Hsi Hsl].
  pose proof (add_item_length _ _ _ _ Hitem) as [_ Hlen].
  split; [done |]. split; [done |]. split; [done |].
  destruct Hitem as (bitsA & bitsB & -> & HbA & HbB & Hsz & Hpos & Hbin).
  rewrite operandA_split, operandB_split by done.
  rewrite sum_31 in Hbin; [| done | done | | | done].
  - by destruct Hbin as (_ & -> & _).
  - destruct fixedLength; lia.
  - destruct fixedLength; lia.
Qed.

(** X6: the check of lines 79-87 catches every sum that overflows the
    [int] of operands of up to 31 bits: for [bitLen <= 31], in every batch
    that the field form of [AddTask::Generate] returns, the label of each
    item read back as a big-endian integer is the sum of the two operands
    read back from the input item. *)
Theorem X6_returned_labels_are_sums (task : AddTask.t) (batchSize : nat)
    (fixedLength : bool) (g g' : Rng) (input labels : list mat) :
  (AddTask.bitLen task ≤ 31)%nat →
  AddTask.Generate task batchSize fixedLength g = Ok (input, labels, g') →
  ∀ (i : nat) (inp lab : mat),
    input !! i = Some inp → labels !! i = Some lab →
    decode_be (decode_column lab)
    = decode_be (operandA (decode_column inp))
      + decode_be (operandB (decode_column inp)).
Proof.
  intros H31 H i inp lab Hinp Hlab.
  apply Generate_Ok in H as (vis & vls & s & _ & _ & Hall & -> & ->).
  destruct (Generate_lookup _ _ _ _ _ _ _ Hall Hinp Hlab)
    as (vi & vl & _ & _ & Hitem & -> & ->).
  destruct (add_item_sum_31 _ _ _ _ H31 Hitem) as (Hsi & Hsl & Hlen & Hsum).
  unfold decode_column. rewrite onehot_decode_label by done.
  cbn [onehot_column mem]. by rewrite onehot_decode_onehot by done.
Qed.

Lemma X6_returned_labels_are_sums_witness :
  ∃ (inp lab : mat) (g' : Rng),
    AddTask.Generate (AddTask.Build 31) 1 true tape_11_plus_2
    = Ok ([inp], [lab], g')
    ∧ decode_be (decode_column lab) = 2 ^ 30 + 2 ^ 28 + 2 ^ 27 + 2 ^ 23
    ∧ decode_be (decode_column lab)
      = decode_be (operandA (decode_column inp))
        + decode_be (operandB (decode_column inp)).
Proof.
  destruct (AddTask.Generate (AddTask.Build 31) 1 true tape_11_plus_2)
    as [[[input labels] g'] | e] eqn:E; [| by vm_compute in E].
  assert (H31 : (AddTask.bitLen (AddTask.Build 31) ≤ 31)%nat) by (cbn; lia).
  pose proof (X6_returned_labels_are_sums _ _ _ _ _ _ _ H31 E) as Hsum.
  vm_compute in E. injection E as <- <- <-.
  eexists _, _, _. split; [reflexivity |].
  split; [by vm_compute |].
  exact (Hsum 0%nat _ _ eq_refl eq_refl).
Defined.

(** X7: a label sequence built by [AddTask::Generate] has at least one
    digit, never more digits than its input sequence has symbols, and
    never more than 31 digits, whatever [bitLen]; for [bitLen <= 30] it
    has at most one digit more than the longer operand. *)
Theorem X7_label_digit_count (task : AddTask.t) (batchSize : nat)
    (fixedLength : bool) (g : Rng) (vis vls : list (list Z))
    (s : AddTask.loop_state) :
  AddTask.GenerateSequences task batchSize fixedLength g = Ok (vis, vls, s) →
  ∀ (i : nat) (vi vl : list Z), vis !! i = Some vi → vls !! i = Some vl →
    (1 ≤ length vl ≤ 31)%nat
    ∧ (length vl ≤ length vi)%nat
    ∧ ((AddTask.bitLen task ≤ 30)%nat →
       (length vl
        ≤ length (operandA vi) `max` length (operandB vi) + 1)%nat).
Proof.
  intros Hseq i vi vl Hvi Hvl.
  apply generate_loop_Ok in Hseq as [_ Hall]; [| done].
  pose proof (Forall2_lookup_lr _ _ _ _ _ _ Hall Hvi Hvl) as Hitem.
  pose proof (add_item_length _ _ _ _ Hitem) as [Hne Hle].
  destruct Hitem as (bitsA & bitsB & -> & HbA & HbB & Hsz & Hpos & Hbin).
  pose proof (wrap32_range (int_of_bits bitsA + int_of_bits bitsB)) as Hr.
  split; [| split; [done |]].
  - apply (binary_of_length _ _ _ Hbin); [| lia].
    unfold int_range in Hr. change (Z.of_nat 31) with 31. lia.
  - intros H30. rewrite operandA_split, operandB_split by done.
    rewrite sum_small in Hbin by (done || destruct fixedLength; lia).
    pose proof (decode_be_bound _ HbA). pose proof (decode_be_bound _ HbB).
    assert (2 ^ Z.of_nat (length bitsA)
            ≤ 2 ^ Z.of_nat (length bitsA `max` length bitsB))
      by (apply Z.pow_le_mono_r; lia).
    assert (2 ^ Z.of_nat (length bitsB)
            ≤ 2 ^ Z.of_nat (length bitsA `max` length bitsB))
      by (apply Z.pow_le_mono_r; lia).
    enough (1 ≤ length vl ≤ S (length bitsA `max` length bitsB))%nat by lia.
    apply (binary_of_length _ _ _ Hbin); [| lia].
    rewrite Nat2Z.inj_succ, Z.pow_succ_r by lia. lia.
Qed.

Lemma X7_label_digit_count_witness :
  ∃ s : AddTask.loop_state,
    AddTask.GenerateSequences (AddTask.Build 4) 1 true tape_11_plus_2
    = Ok ([[1; 0; 1; 1; 2; 0; 0; 1; 0]], [[1; 1; 0; 1]], s)
    ∧ (1 ≤ length [1; 1; 0; 1]%Z ≤ 31)%nat
    ∧ (length [1; 1; 0; 1]%Z ≤ length [1; 0; 1; 1; 2; 0; 0; 1; 0]%Z)%nat.
Proof.
  destruct (AddTask.GenerateSequences (AddTask.Build 4) 1 true tape_11_plus_2)
    as [[[vis vls] s] | e] eqn:Eseq; [| by vm_compute in Eseq].
  pose proof (X7_label_digit_count _ _ _ _ _ _ _ Eseq) as Hcount.
  vm_compute in Eseq. injection Eseq as <- <- <-.
  eexists. split; [reflexivity |].
  destruct (Hcount 0%nat _ _ eq_refl eq_refl) as (H1 & H2 & _).
  by split.
Defined.

(** ** Further properties of the matrix form *)

Lemma Generate_mat_Err (task : AddTask.t) (batchSize : nat) (g : Rng)
    (e : error) :
  AddTask.Generate task batchSize true g = Err e →
  AddTask.Generate_mat task batchSize g = Err e.
Proof. intros E. unfold AddTask.Generate_mat. by rewrite E. Qed.

Lemma Generate_mat_Ok (task : AddTask.t) (batchSize : nat) (g g' : Rng)
    (input labels : mat) :
  AddTask.Generate_mat task batchSize g = Ok (input, labels, g') →
  ∃ (vis vls : list (list Z)) (s : AddTask.loop_state),
    (1 ≤ batchSize)%nat
    ∧ AddTask.GenerateSequences task batchSize true g = Ok (vis, vls, s)
    ∧ Forall2 (add_item task true) vis vls
    ∧ input = Mat (3 * (2 * AddTask.bitLen task + 1)) batchSize
                (concat (mem <$> (onehot_column <$> vis)))
    ∧ labels = Mat (3 * (2 * AddTask.bitLen task + 1)) batchSize
                 (concat (mem <$> zip_with label_column vis vls)).
Proof.
  intros H.
  destruct (AddTask.GenerateSequences task batchSize true g)
    as [[[vis vls] s] | e] eqn:Eseq.
  2:{ rewrite (Generate_mat_Err _ _ _ e) in H by (by apply Generate_Err).
      discriminate. }
  destruct batchSize as [|n]; [by rewrite Generate_mat_empty_batch in H |].
  rewrite (Generate_mat_of_sequences task (S n) g vis vls s ltac:(lia) Eseq)
    in H.
  injection H as <- <- <-. exists vis, vls, s.
  split; [lia |]. split; [done |].
  apply generate_loop_Ok in Eseq as [_ Hall]; done.
Qed.

(** X8: the matrix form of [AddTask::Generate] keeps the sums: for
    [bitLen <= 31], in the two matrices it returns, column [i] of the label
    matrix read back as a big-endian integer is the sum of the two operands
    read back from column [i] of the input matrix, for every [i] below
    [batchSize]. *)
Theorem X8_matrix_columns_are_sums (task : AddTask.t) (batchSize : nat)
    (g g' : Rng) (input labels : mat) :
  (AddTask.bitLen task ≤ 31)%nat →
  AddTask.Generate_mat task batchSize g = Ok (input, labels, g') →
  ∀ i : nat, (i < batchSize)%nat →
    decode_be (onehot_decode (col labels i))
    = decode_be (operandA (onehot_decode (col input i)))
      + decode_be (operandB (onehot_decode (col input i))).
Proof.
  intros H31 H i Hi.
  apply Generate_mat_Ok in H as (vis & vls & s & _ & Hseq & Hall & -> & ->).
  apply generate_loop_Ok in Hseq as [Hlen _]; [| done].
  apply Forall2_length in Hall as Hlen2.
  destruct (fixed_items_columns _ _ _ Hall) as (_ & HcI & HcL).
  destruct (lookup_lt_is_Some_2 vis i) as [vi Hvi]; [lia |].
  destruct (lookup_lt_is_Some_2 vls i) as [vl Hvl]; [lia |].
  pose proof (Forall2_lookup_lr _ _ _ _ _ _ Hall Hvi Hvl) as Hitem.
  rewrite (col_concat_columns _ _ _ i (onehot_column vi) HcI)
    by (by rewrite list_lookup_fmap, Hvi).
  rewrite (col_concat_columns _ _ _ i (label_column vi vl) HcL)
    by (rewrite lookup_zip_with, Hvi; cbn; by rewrite Hvl).
  destruct (add_item_sum_31 _ _ _ _ H31 Hitem) as (Hsi & Hsl & Hle & Hsum).
  rewrite onehot_decode_label by done.
  cbn [onehot_column mem]. by rewrite onehot_decode_onehot by done.
Qed.

Lemma X8_matrix_columns_are_sums_witness :
  ∃ (input labels : mat) (g' : Rng),
    AddTask.Generate_mat (AddTask.Build 4) 2 tape_11_plus_2
    = Ok (input, labels, g')
    ∧ decode_be (onehot_decode (col labels 0)) = 13
    ∧ decode_be (onehot_decode (col labels 0))
      = decode_be (operandA (onehot_decode (col input 0)))
        + decode_be (operandB (onehot_decode (col input 0))).
Proof.
  destruct (AddTask.Generate_mat (AddTask.Build 4) 2 tape_11_plus_2)
    as [[[input labels] g'] | e] eqn:E; [| by vm_compute in E].
  assert (H31 : (AddTask.bitLen (AddTask.Build 4) ≤ 31)%nat) by (cbn; lia).
  pose proof (X8_matrix_columns_are_sums _ _ _ _ _ _ H31 E 0%nat ltac:(lia))
    as Hsum.
  vm_compute in E. injection E as <- <- <-.
  eexists _, _, _. split; [reflexivity |].
  split; [by vm_compute | exact Hsum].
Defined.

(** X9: the matrix form of [AddTask::Generate] fails on an empty batch,
    where [fieldInput(0)] of line 119 is out of bounds, although the field
    form returns two empty fields; on a non-empty batch it fails exactly
    when the field form run with [fixedLength = true] fails, with the same
    error: the column assignments of lines 123-124 always fit. *)
Theorem X9_matrix_form_failures (task : AddTask.t) (batchSize : nat)
    (g : Rng) :
  (batchSize = 0%nat →
   AddTask.Generate_mat task batchSize g = Err OutOfBounds
   ∧ AddTask.Generate task batchSize true g = Ok ([], [], g))
  ∧ ((1 ≤ batchSize)%nat → ∀ e : error,
     AddTask.Generate_mat task batchSize g = Err e
     ↔ AddTask.Generate task batchSize true g = Err e).
Proof.
  split.
  - intros ->. by split.
  - intros Hn e.
    destruct (AddTask.GenerateSequences task batchSize true g)
      as [[[vis vls] s] | e'] eqn:Eseq.
    + rewrite (Generate_mat_of_sequences _ _ _ _ _ _ Hn Eseq).
      rewrite (Generate_of_sequences _ _ _ _ _ _ _ Eseq).
      split; intros [=].
    + apply Generate_Err in Eseq.
      rewrite (Generate_mat_Err _ _ _ _ Eseq), Eseq.
      split; by intros [= ->].
Qed.

Lemma X9_matrix_form_failures_witness :
  AddTask.Generate_mat (AddTask.Build 4) 0 tape_11_plus_2 = Err OutOfBounds
  ∧ (1 ≤ 1)%nat
  ∧ AddTask.Generate_mat (AddTask.Build 31) 1 tape_wide = Err DomainError.
Proof.
  destruct (X9_matrix_form_failures (AddTask.Build 4) 0 tape_11_plus_2)
    as [Hzero _].
  destruct (X9_matrix_form_failures (AddTask.Build 31) 1 tape_wide)
    as [_ Hone].
  assert (H1 : (1 ≤ 1)%nat) by lia.
  split; [exact (proj1 (Hzero eq_refl)) |]. split; [exact H1 |].
  apply (Hone H1). vm_compute. reflexivity.
Defined.

(** ** Further properties of [CopyTask::Generate] *)

Lemma lookup_concat_replicate (b : list Z) (n k : nat) :
  (k < length b * n)%nat →
  concat (replicate n b) !! k = b !! (k `mod` length b)%nat.
Proof.
  revert k. induction n as [|n IH]; intros k Hk; [lia |].
  cbn [replicate concat].
  destruct (decide (k < length b)%nat) as [Hlt | Hge].
  - rewrite lookup_app_l by done. by rewrite Nat.mod_small.
  - rewrite lookup_app_r by lia. rewrite IH by lia. f_equal.
    replace k with (k - length b + 1 * length b)%nat at 2 by lia.
    by rewrite Nat.Div0.mod_add.
Qed.

(** X10: in every item that [CopyTask::Generate] returns, the label
    repeats the value channel of the input with period [size]: for every
    [k] below [size * nRepeats], label entry [size + k] is the value
    channel at time [k mod size]. *)
Theorem X10_copy_label_is_periodic (task : CopyTask.t) (batchSize : nat)
    (g g' : Rng) (input labels : list mat) :
  CopyTask.Generate task batchSize g = Ok (input, labels, g') →
  ∀ (i : nat) (inp lab : mat),
    input !! i = Some inp → labels !! i = Some lab →
    ∃ size : nat,
      (2 ≤ size ≤ CopyTask.maxLength task)%nat
      ∧ n_rows lab = (size + size * CopyTask.nRepeats task)%nat
      ∧ ∀ k : nat, (k < size * CopyTask.nRepeats task)%nat →
          mem lab !! (size + k)%nat
          = channel 0 (mem inp) (k `mod` size)%nat.
Proof.
  intros H i inp lab Hinp Hlab.
  apply copy_Generate_Ok in H as [_ Hall].
  destruct (Forall2_lookup_lr _ _ _ _ _ _ Hall Hinp Hlab)
    as (size & b & Hsz & Hlen & _ & _ & Hrows & Hmem & _ & _ & _ & Hlow & _).
  exists size. split; [done |]. split; [done |].
  intros k Hk. rewrite Hmem.
  rewrite lookup_app_r by (rewrite length_replicate; lia).
  rewrite length_replicate.
  replace (size + k - size)%nat with k by lia.
  rewrite lookup_concat_replicate by (rewrite Hlen; lia).
  rewrite Hlen.
  assert (Hmod : (k `mod` size < size)%nat)
    by (apply Nat.mod_upper_bound; lia).
  by destruct (Hlow _ Hmod) as [-> _].
Qed.

Lemma X10_copy_label_is_periodic_witness :
  ∃ (inp lab : mat) (g' : Rng),
    CopyTask.Generate (CopyTask.Build 5 2) 1 tape_copy = Ok ([inp], [lab], g')
    ∧ mem lab = [0; 0; 0; 1; 0; 1; 1; 0; 1]
    ∧ ∃ size : nat,
        (2 ≤ size ≤ 5)%nat
        ∧ n_rows lab = (size + size * 2)%nat
        ∧ ∀ k : nat, (k < size * 2)%nat →
            mem lab !! (size + k)%nat
            = channel 0 (mem inp) (k `mod` size)%nat.
Proof.
  destruct (CopyTask.Generate (CopyTask.Build 5 2) 1 tape_copy)
    as [[[input labels] g'] | e] eqn:E; [| by vm_compute in E].
  pose proof (X10_copy_label_is_periodic _ _ _ _ _ _ E) as Hper.
  vm_compute in E. injection E as <- <- <-.
  eexists _, _, _. split; [reflexivity |]. split; [reflexivity |].
  exact (Hper 0%nat _ _ eq_refl eq_refl).
Defined.

(** X11: a [CopyTask] that its constructor accepts fails in [Generate] in
    one way only: on the row range [rows(size, size - 1)] of line 49, which
    needs [nRepeats = 0] and a batch that is not empty.  The size draw of
    line 41 is then from the range [2, maxLength], and the vectors that
    lines 48-49 and 54-55 assign always have the length of their row
    range. *)
Theorem X11_copy_failures (maxLength nRepeats batchSize : nat)
    (task : CopyTask.t) (g : Rng) (e : error) :
  CopyTask.new maxLength nRepeats = Ok task →
  CopyTask.Generate task batchSize g = Err e →
  e = OutOfBounds ∧ nRepeats = 0%nat ∧ (1 ≤ batchSize)%nat.
Proof.
  unfold CopyTask.new. destruct (decide (1 < maxLength)%nat) as [Hm |]; [| done].
  intros [= <-]. revert g. induction batchSize as [|n IH]; intros g H; [done |].
  cbn [CopyTask.Generate] in H.
  destruct (copy_generate_item_spec (CopyTask.Build maxLength nRepeats) g)
    as (_ & Hzero & Hok).
  cbn [CopyTask.maxLength CopyTask.nRepeats] in Hzero, Hok.
  destruct (decide (nRepeats = 0%nat)) as [Hn | Hn].
  { rewrite (Hzero ltac:(lia) Hn) in H. injection H as <-.
    repeat split; [done | lia]. }
  destruct (Hok ltac:(lia) ltac:(lia)) as (inp & lab & g1 & E & _).
  rewrite E, ok_bind in H.
  destruct (CopyTask.Generate (CopyTask.Build maxLength nRepeats) n g1)
    as [[[inps labs] g2] | e'] eqn:En.
  - discriminate.
  - injection H as <-. destruct (IH g1 En) as (He & Hr & _).
    repeat split; [done | done | lia].
Qed.

Lemma X11_copy_failures_witness :
  CopyTask.new 5 0 = Ok (CopyTask.Build 5 0)
  ∧ CopyTask.Generate (CopyTask.Build 5 0) 2 tape_copy = Err OutOfBounds
  ∧ (OutOfBounds = OutOfBounds ∧ 0%nat = 0%nat ∧ (1 ≤ 2)%nat).
Proof.
  assert (Enew : CopyTask.new 5 0 = Ok (CopyTask.Build 5 0)) by reflexivity.
  assert (E : CopyTask.Generate (CopyTask.Build 5 0) 2 tape_copy
              = Err OutOfBounds) by reflexivity.
  split; [exact Enew |]. split; [exact E |].
  exact (X11_copy_failures 5 0 2 _ _ _ Enew E).
Defined.

(** ** Construction and generation together *)

(** X12: a task accepted by the constructor of [AddTask] with
    [bitLen <= 30] generates without error: the field form of [Generate]
    returns [batchSize] input items and [batchSize] label items for every
    batch size and every random tape, in the fixed-length mode and, when
    [bitLen >= 2], in the variable-length mode. *)
Theorem X12_constructed_task_generates (bitLen batchSize : nat)
    (fixedLength : bool) (g : Rng) (task : AddTask.t) :
  AddTask.new bitLen = Ok task →
  (bitLen ≤ 30)%nat →
  (fixedLength = false → (2 ≤ bitLen)%nat) →
  ∃ (input labels : list mat) (g' : Rng),
    AddTask.Generate task batchSize fixedLength g = Ok (input, labels, g')
    ∧ length input = batchSize ∧ length labels = batchSize.
Proof.
  intros Hnew H30 Hvar. unfold AddTask.new in Hnew.
  case_decide; [discriminate |]. injection Hnew as <-.
  destruct (Generate_total (AddTask.Build bitLen) batchSize fixedLength g)
    as ([[input labels] g'] & E); [done | done |].
  exists input, labels, g'. split; [done |].
  apply Generate_Ok in E as (vis & vls & s & _ & Hlen & Hall & -> & ->).
  apply Forall2_length in Hall.
  rewrite length_fmap, length_zip_with. lia.
Qed.

Lemma X12_constructed_task_generates_witness :
  ∃ (input labels : list mat) (g' : Rng),
    AddTask.Generate (AddTask.Build 4) 3 false tape_11_plus_2
    = Ok (input, labels, g')
    ∧ length input = 3%nat ∧ length labels = 3%nat.
Proof.
  apply (X12_constructed_task_generates 4 3 false tape_11_plus_2
           (AddTask.Build 4)); [reflexivity | lia | lia].
Defined.

(** ** The digit loop *)

(** X13: the loop of lines 74-78 ends on every [int]: it runs at most 31
    times, leaves [binarySeq] empty when [tot <= 0], and for [tot > 0]
    fills it with the binary digits of [tot], least significant first and
    ending with the digit 1. *)
Theorem X13_digit_loop (tot : Z) :
  int_range tot →
  ∃ binarySeq : list Z,
    AddTask.binary_loop 32 tot [] = Ok binarySeq
    ∧ (length binarySeq ≤ 31)%nat
    ∧ Forall is_bit binarySeq
    ∧ (tot ≤ 0 → binarySeq = [])
    ∧ (0 < tot →
       decode_be (reverse binarySeq) = tot
       ∧ list.last binarySeq = Some 1).
Proof.
  intros Hr. unfold int_range in Hr.
  destruct (binary_loop_spec 32 tot []) as (ds & E & Hds & Hz & Hp).
  { change (Z.of_nat 32) with 32. lia. }
  exists ds. rewrite app_nil_l in E. split; [done |].
  split; [| done].
  destruct (decide (0 < tot)) as [Hpos | Hneg].
  - destruct (Hp Hpos) as [Hdec Hlast].
    assert (Hbin : binary_of tot (reverse ds)).
    { split; [by apply Forall_reverse |]. split; [done |].
      split; [lia |]. intros _. by rewrite head_reverse. }
    rewrite <- length_reverse.
    apply (binary_of_length tot (reverse ds) 31 Hbin); [| lia].
    change (Z.of_nat 31) with 31. lia.
  - rewrite (Hz ltac:(lia)). cbn. lia.
Qed.

Lemma X13_digit_loop_witness :
  int_range 13
  ∧ ∃ binarySeq : list Z,
      AddTask.binary_loop 32 13 [] = Ok binarySeq
      ∧ binarySeq = [1; 0; 1; 1]
      ∧ (length binarySeq ≤ 31)%nat.
Proof.
  assert (Hr : int_range 13) by (unfold int_range; lia).
  split; [exact Hr |].
  destruct (X13_digit_loop 13 Hr) as (ds & E & Hlen & _).
  exists ds. split; [exact E |]. split; [| exact Hlen].
  vm_compute in E. by injection E as <-.
Defined.

(** ** The operand loops *)

(** X14: the loops of lines 58-63 and 65-70, run over [n <= 31] bits of
    [v] from position [lo], stay inside [v] and compute the value of those
    bits read big-endian, a non-negative [int]. *)
Theorem X14_operand_loop_reads_value (v : list Z) (lo n : nat) :
  (lo + n ≤ length v)%nat → (n ≤ 31)%nat →
  Forall is_bit (take n (drop lo v)) →
  AddTask.read_bits v lo n = Ok (decode_be (take n (drop lo v)))
  ∧ 0 ≤ decode_be (take n (drop lo v)) < 2 ^ Z.of_nat n.
Proof.
  intros Hlen Hn Hbits.
  assert (Hl : length (take n (drop lo v)) = n)
    by (rewrite length_take, length_drop; lia).
  split.
  - rewrite read_bits_fold by done. f_equal.
    apply shift_in_fold_decode; [done | lia].
  - pose proof (decode_be_bound _ Hbits) as Hb. by rewrite Hl in Hb.
Qed.

Lemma X14_operand_loop_reads_value_witness :
  AddTask.read_bits [1; 0; 1; 1; 2; 0; 0; 1; 0] 5 4 = Ok 2
  ∧ AddTask.read_bits [1; 0; 1; 1; 2; 0; 0; 1; 0] 0 4 = Ok 11.
Proof.
  pose proof (X14_operand_loop_reads_value [1; 0; 1; 1; 2; 0; 0; 1; 0] 5 4)
    as HB.
  pose proof (X14_operand_loop_reads_value [1; 0; 1; 1; 2; 0; 0; 1; 0] 0 4)
    as HA.
  split.
  - apply HB; [cbn; lia | lia |]. repeat constructor; unfold is_bit; lia.
  - apply HA; [cbn; lia | lia |]. repeat constructor; unfold is_bit; lia.
Defined.

(** ** The label is the binary representation of the sum *)

(** X15: in every pair of sequences that the loop of [AddTask::Generate]
    builds, operands that are all zero bits give the label [[0]], whatever
    [bitLen]; and for [bitLen <= 31] the label is the binary representation
    of the sum of the two operands of the input sequence: bits, most
    significant first, equal to the sum when read back, with the leading
    digit 1 unless the sum is zero, which is the single digit [0]. *)
Theorem X15_label_is_binary_of_sum (task : AddTask.t) (batchSize : nat)
    (fixedLength : bool) (g : Rng) (vis vls : list (list Z))
    (s : AddTask.loop_state) :
  AddTask.GenerateSequences task batchSize fixedLength g = Ok (vis, vls, s) →
  ∀ (i : nat) (vi vl : list Z), vis !! i = Some vi → vls !! i = Some vl →
    (operandA vi = replicate (length (operandA vi)) 0 →
     operandB vi = replicate (length (operandB vi)) 0 → vl = [0])
    ∧ ((AddTask.bitLen task ≤ 31)%nat →
       binary_of (decode_be (operandA vi) + decode_be (operandB vi)) vl).
Proof.
  intros Hseq i vi vl Hvi Hvl.
  apply generate_loop_Ok in Hseq as [_ Hall]; [| done].
  pose proof (Forall2_lookup_lr _ _ _ _ _ _ Hall Hvi Hvl) as Hitem.
  destruct Hitem as (bitsA & bitsB & -> & HbA & HbB & Hsz & Hpos & Hbin).
  rewrite operandA_split, operandB_split by done. split.
  - intros EA EB. destruct Hbin as (_ & _ & Hz & _). apply Hz.
    by rewrite EA, EB, !int_of_bits_zeros.
  - intros H31. rewrite sum_31 in Hbin; [done | done | done | | | done].
    + destruct fixedLength; lia.
    + destruct fixedLength; lia.
Qed.

Lemma X15_label_is_binary_of_sum_witness :
  ∃ s : AddTask.loop_state,
    AddTask.GenerateSequences (AddTask.Build 4) 2 true tape_11_plus_2
    = Ok ([[1; 0; 1; 1; 2; 0; 0; 1; 0]; [0; 0; 0; 0; 2; 0; 0; 0; 0]],
          [[1; 1; 0; 1]; [0]], s)
    ∧ binary_of 13 [1; 1; 0; 1]
    ∧ binary_of 0 [0].
Proof.
  destruct (AddTask.GenerateSequences (AddTask.Build 4) 2 true tape_11_plus_2)
    as [[[vis vls] s] | e] eqn:Eseq; [| by vm_compute in Eseq].
  pose proof (X15_label_is_binary_of_sum _ _ _ _ _ _ _ Eseq) as Hlab.
  vm_compute in Eseq. injection Eseq as <- <- <-.
  assert (H31 : (AddTask.bitLen (AddTask.Build 4) ≤ 31)%nat) by (cbn; lia).
  eexists. split; [reflexivity |]. split.
  - exact (proj2 (Hlab 0%nat _ _ eq_refl eq_refl) H31).
  - exact (proj2 (Hlab 1%nat _ _ eq_refl eq_refl) H31).
Defined.
